(** * Meteorite Landings Explorer: the data pipeline of FinalProject_WG.py

    The loader, the classifier, the sidebar filters of [main] and the chart
    aggregations, embedded as executable definitions, and the properties of
    the specification proved about them.

    Numbers are binary64 floats, as pandas holds them: a missing value is NaN,
    and a comparison with NaN is false. *)

From Stdlib Require Import ZArith List Bool Ascii String Floats Sorting Permutation Lia.
From stdpp Require Import gmap strings list.
Import ListNotations.

Open Scope Z_scope.

(** ** binary64 values *)

Module F64.

Definition isna (x : float) : bool := PrimFloat.is_nan x.
Definition notna (x : float) : bool := negb (isna x).

(** [x <= y] and [x >= y] of numpy: false as soon as one side is NaN. *)
Definition leb (x y : float) : bool := PrimFloat.leb x y.
Definition geb (x y : float) : bool := PrimFloat.leb y x.

(** A Python int met by a float64 column is converted to float64, rounding to
    nearest. *)
Definition of_Z (z : Z) : float := SF2Prim (binary_normalize prec emax z 0 false).

(** Truncation toward zero of a finite float; [None] for NaN and the
    infinities. *)
Definition trunc (x : float) : option Z :=
  match Prim2SF x with
  | S754_zero _ => Some 0
  | S754_finite s m e =>
      let v := if 0 <=? e then Z.pos m * 2 ^ e else Z.pos m / 2 ^ (- e) in
      Some (if s then - v else v)
  | S754_infinity _ | S754_nan => None
  end.

(** Neither NaN nor an infinity. *)
Definition finite (x : float) : bool :=
  match Prim2SF x with
  | S754_zero _ | S754_finite _ _ _ => true
  | S754_infinity _ | S754_nan => false
  end.

(** The comparison of the specification is a lexicographic order on
    (sign class, exponent, mantissa); transitivity is read off that key. *)
Definition key (x : spec_float) : Z * Z * Z :=
  match x with
  | S754_nan => (0, 0, 0)
  | S754_zero _ => (0, 0, 0)
  | S754_infinity true => (-2, 0, 0)
  | S754_infinity false => (2, 0, 0)
  | S754_finite true m e => (-1, - e, Z.neg m)
  | S754_finite false m e => (1, e, Z.pos m)
  end.

Definition lexle (a b : Z * Z * Z) : Prop :=
  let '(a1, a2, a3) := a in
  let '(b1, b2, b3) := b in
  a1 < b1 \/ (a1 = b1 /\ (a2 < b2 \/ (a2 = b2 /\ a3 <= b3))).

End F64.

(** ** Text

    A Python [str] is modelled by a Rocq string of 8-bit characters, read as
    the code points below 256.  In that range the regular expression class
    [\d] is the ten ASCII digits, and the white space removed by [str.strip]
    is 9-13, 28-32, 133 and 160. *)

Module Text.

Definition is_digit (c : ascii) : bool :=
  let n := N_of_ascii c in ((48 <=? n) && (n <=? 57))%N.

Definition is_space (c : ascii) : bool :=
  let n := N_of_ascii c in
  (((9 <=? n) && (n <=? 13)) || ((28 <=? n) && (n <=? 32)) || (n =? 133) || (n =? 160))%N.

(** [s.replace('\d+', '', regex=True)]: every maximal run of digits is a match
    and is replaced by the empty string; what is left are the characters that
    are no digit, in order. *)
Fixpoint re_sub_digits (s : string) : string :=
  match s with
  | EmptyString => EmptyString
  | String c s' =>
      if is_digit c then re_sub_digits s' else String c (re_sub_digits s')
  end.

Fixpoint lstrip (s : string) : string :=
  match s with
  | EmptyString => EmptyString
  | String c s' => if is_space c then lstrip s' else s
  end.

Fixpoint rstrip (s : string) : string :=
  match s with
  | EmptyString => EmptyString
  | String c s' =>
      match rstrip s' with
      | EmptyString => if is_space c then EmptyString else String c EmptyString
      | t => String c t
      end
  end.

Definition strip (s : string) : string := rstrip (lstrip s).

(** The characters of a string. *)
Fixpoint chars (s : string) : list ascii :=
  match s with
  | EmptyString => []
  | String c s' => c :: chars s'
  end.

Definition no_digit (s : string) : Prop :=
  forall c, In c (chars s) -> is_digit c = false.

Definition no_leading_space (s : string) : Prop :=
  forall c t, s = String c t -> is_space c = false.

Definition no_trailing_space (s : string) : Prop :=
  forall t c, s = (t ++ String c EmptyString)%string -> is_space c = false.

End Text.

(** ** The data model *)

(** What a Python call gives back: a value or a raised exception. *)
Inductive exn :=
  | ValueError
  | AttributeError
  | IntCastingNaNError
  | StreamlitAPIException
  | UnboundReference.

Inductive result (A : Type) := Ok (a : A) | Raise (e : exn).
Arguments Ok {A} a.
Arguments Raise {A} e.

Definition result_bind {A B} (r : result A) (k : A -> result B) : result B :=
  match r with
  | Ok a => k a
  | Raise e => Raise e
  end.

Fixpoint result_mapM {A B} (f : A -> result B) (l : list A) : result (list B) :=
  match l with
  | [] => Ok []
  | a :: l' =>
      result_bind (f a) (fun b =>
      result_bind (result_mapM f l') (fun bs => Ok (b :: bs)))
  end.

(** A field of a column as [read_csv] delivers it: a number (NaN for an empty
    field) or the text of the field.  A column read as numbers holds numbers
    only; a column with a field that is no number holds the texts of its
    fields, and NaN for the empty ones. *)
Inductive cell := Number (x : float) | Str (s : string).

(** A value of a numeric column: float64, or int64 after [astype(int)]. *)
Inductive number := Float64 (x : float) | Int64 (z : Z).

(** One line of Meteorite_Landings.csv as [read_csv] delivers it, the [id]
    column being the index.  The file has the ten columns of the header; the
    mass and the coordinates are columns of numbers.  A missing text field
    is [None]. *)
Module Raw.
Record record := {
  id : Z;
  name : option string;
  nametype : option string;
  recclass : cell;
  mass_g : float;
  fall : option string;
  year : cell;
  reclat : float;
  reclong : float;
  GeoLocation : option string
}.
End Raw.

(** A row after [read_meteorite_date]: two columns dropped, the others renamed. *)
Record cleaned := {
  c_id : Z;
  c_Meteorite_Name : option string;
  c_Classification : option string;
  c_Mass_g : float;
  c_Discovery_Type : option string;
  c_Year : number;
  c_Latitude : float;
  c_Longitude : float
}.

(** A row of [meteorite_data] once the [Type] column is added. *)
Record record := {
  id : Z;
  Meteorite_Name : option string;
  Classification : option string;
  Mass_g : float;
  Discovery_Type : option string;
  Year : number;
  Latitude : float;
  Longitude : float;
  Type_ : option string
}.

Definition frame := list record.

(** The sidebar's values: the multiselect, the year slider (integers) and the
    mass slider (floats). *)
Record selection := {
  selected_types : list string;
  selected_year_range : Z * Z;
  selected_mass_range : float * float
}.

(** ** The classification table *)

Definition meteorite_class : gmap string string :=
  list_to_map [
    ("CB", "Carbonaceous Chondrite"); ("CH", "Carbonaceous Chondrite");
    ("CK", "Carbonaceous Chondrite"); ("CM", "Carbonaceous Chondrite");
    ("CR", "Carbonaceous Chondrite"); ("CV", "Carbonaceous Chondrite");
    ("CO", "Carbonaceous Chondrite"); ("CI", "Carbonaceous Chondrite");
    ("H", "Ordinary Chondrite"); ("L", "Ordinary Chondrite"); ("LL", "Ordinary Chondrite");
    ("R", "Rumuruti Chondrite");
    ("EH", "Enstatite Chondrite"); ("EL", "Enstatite Chondrite");
    ("Lodranite", "Primitive Achondrite"); ("Acapulcoite", "Primitive Achondrite");
    ("Winonaite", "Primitive Achondrite");
    ("Shergottite", "Martian"); ("Nakhlite", "Martian"); ("Chassignite", "Martian");
    ("Aubrite", "Aubrite");
    ("Ureilite", "Ureilite");
    ("Howardite", "HED"); ("Eucrite", "HED"); ("Diogenite", "HED");
    ("Angrite", "Angrite");
    ("Brachinite", "Brachinite");
    ("Feldspathic Breccia", "Lunar"); ("Basaltic", "Lunar"); ("Polymict", "Lunar");
    ("IAB", "Iron Meteorite"); ("IIAB", "Iron Meteorite"); ("IIIAB", "Iron Meteorite");
    ("IVAB", "Iron Meteorite");
    ("Pallasite", "Stony-Iron"); ("Mesosiderite", "Stony-Iron")
  ]%string.

Definition get_df_count {A} (df : list A) : nat := length df.

(** ** Loading and cleaning: [read_meteorite_date] *)

Inductive errors_mode := errors_raise | errors_coerce.

Section Loader.

(** The reader of numeric literals behind [pd.to_numeric]: the value of a text
    that is a number, [None] for any other text. *)
Variable parse_number : string -> option float.

Definition to_numeric_cell (errors : errors_mode) (c : cell) : result float :=
  match c with
  | Number x => Ok x
  | Str s =>
      match parse_number s with
      | Some x => Ok x
      | None =>
          match errors with
          | errors_raise => Raise ValueError
          | errors_coerce => Ok PrimFloat.nan
          end
      end
  end.

Definition to_numeric (errors : errors_mode) (col : list cell) : result (list float) :=
  result_mapM (to_numeric_cell errors) col.

Definition is_text (c : cell) : bool :=
  match c with
  | Str _ => true
  | Number _ => false
  end.

(** What the string methods see of a field: its text; a field that holds no
    text counts as missing. *)
Definition text_of (c : cell) : option string :=
  match c with
  | Str s => Some s
  | Number _ => None
  end.

(** Whether [Series.str] accepts a column: one without rows, or one in which
    some field holds text.  A column of numbers, which is what [read_csv]
    makes of a column whose fields are all empty, is refused. *)
Definition str_accepts (col : list cell) : bool :=
  match col with
  | [] => true
  | _ :: _ => existsb is_text col
  end.

(** [Series.str]: the fields as the string methods see them, or
    AttributeError. *)
Definition str_accessor (col : list cell) : result (list (option string)) :=
  if str_accepts col then Ok (map text_of col) else Raise AttributeError.

(** [.str.replace('\d+', '', regex=True).str.strip()] on one field; a missing
    value stays missing.  The second [.str] is taken of a column of texts and
    is never refused. *)
Definition clean_classification (v : option string) : option string :=
  match v with
  | Some s => Some (Text.strip (Text.re_sub_digits s))
  | None => None
  end.

(** Drop [nametype] and [GeoLocation], rename the rest, and set the two
    cleaned columns. *)
Definition renamed (r : Raw.record) (classification : option string) (year : float)
  : cleaned :=
  {| c_id := Raw.id r;
     c_Meteorite_Name := Raw.name r;
     c_Classification := classification;
     c_Mass_g := Raw.mass_g r;
     c_Discovery_Type := Raw.fall r;
     c_Year := Float64 year;
     c_Latitude := Raw.reclat r;
     c_Longitude := Raw.reclong r |}.

Fixpoint set_columns (df : list Raw.record) (classification : list (option string))
  (year : list float) : list cleaned :=
  match df, classification, year with
  | r :: df', c :: cs, y :: ys => renamed r c y :: set_columns df' cs ys
  | _, _, _ => []
  end.

Definition read_meteorite_date (csv : list Raw.record) : result (list cleaned * nat) :=
  let df := csv in
  let total_records := length df in
  result_bind (str_accessor (map Raw.recclass df)) (fun texts =>
  let classification := map clean_classification texts in
  result_bind (to_numeric errors_coerce (map Raw.year df)) (fun year =>
  Ok (set_columns df classification year, total_records))).

(** What [errors='coerce'] makes of one field, and the cleaned row of one
    line. *)
Definition coerced (c : cell) : float :=
  match c with
  | Number x => x
  | Str s =>
      match parse_number s with
      | Some x => x
      | None => PrimFloat.nan
      end
  end.

Definition cleaned_row (r : Raw.record) : cleaned :=
  renamed r (clean_classification (text_of (Raw.recclass r))) (coerced (Raw.year r)).

End Loader.

(** ** The classifier: [meteorite_data["Type"] = ...map(meteorite_class)] *)

Definition map_class (v : option string) : option string :=
  match v with
  | Some code => meteorite_class !! code
  | None => None
  end.

Definition add_Type (c : cleaned) : record :=
  {| id := c_id c;
     Meteorite_Name := c_Meteorite_Name c;
     Classification := c_Classification c;
     Mass_g := c_Mass_g c;
     Discovery_Type := c_Discovery_Type c;
     Year := c_Year c;
     Latitude := c_Latitude c;
     Longitude := c_Longitude c;
     Type_ := map_class (c_Classification c) |}.

Definition classify (df : list cleaned) : frame := map add_Type df.

(** ** Column operations *)

Definition number_isna (n : number) : bool :=
  match n with
  | Float64 x => F64.isna x
  | Int64 _ => false
  end.

(** [n >= z] and [n <= z] for the Python int [z]. *)
Definition number_ge (n : number) (z : Z) : bool :=
  match n with
  | Float64 x => F64.geb x (F64.of_Z z)
  | Int64 y => (z <=? y)%Z
  end.

Definition number_le (n : number) (z : Z) : bool :=
  match n with
  | Float64 x => F64.leb x (F64.of_Z z)
  | Int64 y => (y <=? z)%Z
  end.

(** [astype(int)] on one value: pandas refuses NaN and the infinities; the
    cast truncates, and out of the int64 range it yields -2^63 (x86-64). *)
Definition astype_int (n : number) : result number :=
  match n with
  | Int64 z => Ok (Int64 z)
  | Float64 x =>
      match F64.trunc x with
      | Some v =>
          Ok (Int64 (if (- 2 ^ 63 <=? v) && (v <? 2 ^ 63) then v else - 2 ^ 63))
      | None => Raise IntCastingNaNError
      end
  end.

Definition isin (values : list string) (v : option string) : bool :=
  match v with
  | Some s => existsb (String.eqb s) values
  | None => false
  end.

Definition set_Year (r : record) (y : number) : record :=
  {| id := id r;
     Meteorite_Name := Meteorite_Name r;
     Classification := Classification r;
     Mass_g := Mass_g r;
     Discovery_Type := Discovery_Type r;
     Year := y;
     Latitude := Latitude r;
     Longitude := Longitude r;
     Type_ := Type_ r |}.

Fixpoint set_Year_column (df : frame) (col : list number) : frame :=
  match df, col with
  | r :: df', y :: col' => set_Year r y :: set_Year_column df' col'
  | _, _ => []
  end.
(** ** Objects and references

    A Python variable holds a reference to a DataFrame object.  The heap lists
    the live objects; a reference is a position in it.  [copy], a boolean mask
    and [dropna] make a new object, a column assignment changes the object in
    place. *)

Definition ref := nat.
Definition heap := list frame.

Definition M (A : Type) : Type := heap -> result A * heap.

Definition ret {A} (a : A) : M A := fun h => (Ok a, h).

Definition bind {A B} (m : M A) (k : A -> M B) : M B :=
  fun h =>
    match m h with
    | (Ok a, h') => k a h'
    | (Raise e, h') => (Raise e, h')
    end.

Notation "x <- m ;; k" := (bind m (fun x => k))
  (at level 100, m at next level, right associativity).

Definition lift {A} (r : result A) : M A := fun h => (r, h).

Definition new_frame (df : frame) : M ref :=
  fun h => (Ok (length h), h ++ [df]).

Definition read_frame (r : ref) : M frame :=
  fun h =>
    match h !! r with
    | Some df => (Ok df, h)
    | None => (Raise UnboundReference, h)
    end.

Definition write_frame (r : ref) (df : frame) : M unit :=
  fun h => (Ok tt, <[r := df]> h).

(** [df.copy()] *)
Definition df_copy (r : ref) : M ref :=
  df <- read_frame r ;; new_frame df.

(** [df[mask]] for a boolean column [mask] computed row by row *)
Definition df_getitem_mask (r : ref) (mask : record -> bool) : M ref :=
  df <- read_frame r ;; new_frame (List.filter mask df).

(** [df.dropna(subset=['Year'])] *)
Definition df_dropna_Year (r : ref) : M ref :=
  df <- read_frame r ;; new_frame (List.filter (fun x => negb (number_isna (Year x))) df).

(** [df['Year'] = df['Year'].astype(int)] *)
Definition df_Year_astype_int (r : ref) : M unit :=
  df <- read_frame r ;;
  col <- lift (result_mapM astype_int (map Year df)) ;;
  write_frame r (set_Year_column df col).

(** ** The filters of [main] *)

Definition mass_mask (mass_range : float * float) (r : record) : bool :=
  F64.geb (Mass_g r) (fst mass_range) && F64.leb (Mass_g r) (snd mass_range).

Definition year_mask (year_range : Z * Z) (r : record) : bool :=
  number_ge (Year r) (fst year_range) && number_le (Year r) (snd year_range).

(** Lines 330-347: copy, type filter when some type is selected, mass filter,
    year filter. *)
Definition apply_filters (meteorite_data : ref) (sel : selection) : M ref :=
  filtered_data <- df_copy meteorite_data ;;
  filtered_data <-
    match selected_types sel with
    | _ :: _ =>
        df_getitem_mask filtered_data (fun r => isin (selected_types sel) (Type_ r))
    | [] => ret filtered_data
    end ;;
  filtered_data <- df_getitem_mask filtered_data (mass_mask (selected_mass_range sel)) ;;
  filtered_data <- df_dropna_Year filtered_data ;;
  filtered_data <- df_getitem_mask filtered_data (year_mask (selected_year_range sel)) ;;
  ret filtered_data.

(** Lines 330-350: the filters, then the year column made integer for display. *)
Definition filter_for_display (meteorite_data : ref) (sel : selection) : M ref :=
  filtered_data <- apply_filters meteorite_data sel ;;
  _ <- df_Year_astype_int filtered_data ;;
  ret filtered_data.

(** ** Sorting as pandas does

    [sort_values] goes through [nargsort]: the rows whose key is missing are
    set apart and come last; the others are ordered by an ascending argsort,
    and a descending order is obtained by reversing before and after it.

    The source asks for no kind of sort, so numpy's default kind is used; it
    returns the rows rearranged in order and leaves open where rows of equal
    key go.  [nargsort_with] therefore takes the argsort as an argument.
    [argsort], the insertion of each row into the sorted rest, is one argsort,
    and [nargsort] is [nargsort_with] at it: one of the results the library
    may give.  What is proved of the charts uses only that the argsort
    rearranges and orders. *)

Section Sort.

Context {A : Type}.
Variable isna : A -> bool.
Variable leb : A -> A -> bool.

Fixpoint insert (x : A) (l : list A) : list A :=
  match l with
  | [] => [x]
  | y :: l' => if leb x y then x :: l else y :: insert x l'
  end.

Definition argsort (l : list A) : list A := fold_right insert [] l.

Definition nargsort_with (sort : list A -> list A) (ascending : bool) (l : list A)
  : list A :=
  let non_nans := List.filter (fun x => negb (isna x)) l in
  let nans := List.filter isna l in
  (if ascending then sort non_nans else rev (sort (rev non_nans))) ++ nans.

Definition nargsort (ascending : bool) (l : list A) : list A :=
  nargsort_with argsort ascending l.

End Sort.

Definition sort_values {A} (by_ : A -> float) (ascending : bool) (df : list A) : list A :=
  nargsort (fun r => F64.isna (by_ r)) (fun a b => F64.leb (by_ a) (by_ b)) ascending df.

(** ** Chart 2: [chart_type_distribution] *)

(** One step of the hash table behind [value_counts]: a key met again adds one
    to its count, a new key is appended. *)
Fixpoint count_key (k : string) (acc : list (string * nat)) : list (string * nat) :=
  match acc with
  | [] => [(k, 1%nat)]
  | (k', n) :: acc' =>
      if String.eqb k' k then (k', S n) :: acc' else (k', n) :: count_key k acc'
  end.

Definition count_values (col : list (option string)) : list (string * nat) :=
  fold_left (fun acc v => match v with Some k => count_key k acc | None => acc end) col [].

Definition sort_counts (ascending : bool) (s : list (string * nat)) : list (string * nat) :=
  nargsort (fun _ => false) (fun a b => (snd a <=? snd b)%nat) ascending s.

(** [Series.value_counts()]: missing values are not counted; most frequent
    first. *)
Definition value_counts (col : list (option string)) : list (string * nat) :=
  sort_counts false (count_values col).

(** [df["Type"].value_counts().sort_values(ascending=False)] *)
Definition type_counts (df : frame) : list (string * nat) :=
  sort_counts false (value_counts (map Type_ df)).

(** The same with the argsort of the counts, ascending, left open. *)
Section AnySort.

Variable sort : list (string * nat) -> list (string * nat).

Definition sort_counts_with (ascending : bool) (s : list (string * nat))
  : list (string * nat) :=
  nargsort_with (fun _ => false) sort ascending s.

Definition value_counts_with (col : list (option string)) : list (string * nat) :=
  sort_counts_with false (count_values col).

Definition type_counts_with (df : frame) : list (string * nat) :=
  sort_counts_with false (value_counts_with (map Type_ df)).

End AnySort.

(** The bars drawn, or [None] when the function warns and returns. *)
Definition chart_type_distribution (df : frame) : option (list (string * nat)) :=
  match type_counts df with
  | [] => None
  | bars => Some bars
  end.

(** ** Chart 3: [chart_top_mass_by_year] *)

Record top_record := {
  row : record;
  Mass_kg : float
}.

Definition add_Mass_kg (r : record) : top_record :=
  {| row := r; Mass_kg := PrimFloat.div (Mass_g r) (F64.of_Z 1000) |}.

Definition chart_top_mass_by_year (df : frame) (year_range : Z * Z) : list top_record :=
  let df_filtered :=
    List.filter (fun r => negb (F64.isna (Mass_g r)) && negb (number_isna (Year r))) df in
  let df_filtered := List.filter (year_mask year_range) df_filtered in
  let top_10 := firstn 10 (sort_values Mass_g false df_filtered) in
  let top_10 := map add_Mass_kg top_10 in
  sort_values Mass_kg true top_10.

(** ** One pass of [main] after the sidebar is read

    [main] is what a pass computes and hands to its drawing calls: the two
    counts, the data of charts 2 and 3 and the table.  It raises where the
    filtering block raises.  The drawing calls of matplotlib, PyDeck and
    Streamlit are not part of it, and some of them raise on data that [main]
    accepts, as [ax.barh] does when one of the ten heaviest records has no
    name.  A pass of the program that completes is thus a pass on which
    [main] returns [Ok], and not the other way round: what is proved of a
    completed pass has [main ... = (Ok p, h')] as a hypothesis. *)

Record page := {
  filtered_records : nat;
  total_data_count : nat;
  chart2 : option (list (string * nat));
  chart3 : option (list top_record);
  table : ref
}.

Definition is_empty {A} (df : list A) : bool :=
  match df with
  | [] => true
  | _ :: _ => false
  end.

Definition main (meteorite_data : ref) (sel : selection) : M page :=
  filtered_data <- filter_for_display meteorite_data sel ;;
  shown <- read_frame filtered_data ;;
  canonical <- read_frame meteorite_data ;;
  let charts :=
    if negb (is_empty shown)
    then (chart_type_distribution shown,
          Some (chart_top_mass_by_year canonical (selected_year_range sel)))
    else (None, None) in
  ret {| filtered_records := get_df_count shown;
         total_data_count := get_df_count canonical;
         chart2 := fst charts;
         chart3 := snd charts;
         table := filtered_data |}.

(** ** The sidebar of [main]: what the widgets offer and their defaults *)

Definition option_string_eqb (a b : option string) : bool :=
  match a, b with
  | Some x, Some y => String.eqb x y
  | None, None => true
  | _, _ => false
  end.

(** [Series.unique()]: the distinct values in the order of their first
    appearance, the missing value among them. *)
Definition unique (col : list (option string)) : list (option string) :=
  fold_left
    (fun seen v => if existsb (option_string_eqb v) seen then seen else seen ++ [v])
    col [].

(** [[t for t in unique_types if pd.notna(t)]] *)
Definition notna_values (values : list (option string)) : list string :=
  flat_map (fun v => match v with Some t => [t] | None => [] end) values.

(** [sorted(...)] on strings: ascending by code points, equal strings in
    their order. *)
Definition sorted (l : list string) : list string := argsort String.leb l.

Definition available_types (meteorite_data : frame) : list string :=
  sorted (notna_values (unique (map Type_ meteorite_data))).

Definition slider_min_year : Z := 1399.
Definition slider_max_year : Z := 2025.

(** [Series.dropna()] on a float column. *)
Definition dropna (col : list float) : list float :=
  List.filter (fun x => negb (F64.isna x)) col.

(** One step of numpy's minimum and maximum reductions: the running value is
    kept when it is NaN or not beyond the next one. *)
Definition fmin (a x : float) : float := if F64.isna a || F64.leb a x then a else x.
Definition fmax (a x : float) : float := if F64.isna a || F64.geb a x then a else x.

(** [Series.min()] and [Series.max()]: NaN for an empty column. *)
Definition series_min (col : list float) : float :=
  match col with
  | [] => PrimFloat.nan
  | x :: rest => fold_left fmin rest x
  end.

Definition series_max (col : list float) : float :=
  match col with
  | [] => PrimFloat.nan
  | x :: rest => fold_left fmax rest x
  end.

(** The bounds of the mass slider (lines 277-279). *)
Definition mass_slider (meteorite_data : frame) : float * float :=
  let mass_data := dropna (map Mass_g meteorite_data) in
  (series_min mass_data, series_max mass_data).

Section Sidebar.

(** Whether [st.slider] accepts two float bounds.  Streamlit checks them and
    raises StreamlitAPIException when it refuses, as it does when the two are
    equal. *)
Variable slider_accepts : float -> float -> bool.

(** [st.slider(label, min_value, max_value, value=(min_value, max_value),
    step)] on a first visit: the widget gives its default value. *)
Definition st_slider (min_value max_value : float) : result (float * float) :=
  if slider_accepts min_value max_value then Ok (min_value, max_value)
  else Raise StreamlitAPIException.

(** The selection of a first visit: every widget at its default.  The year
    slider has the bounds 1399 and 2025 and is accepted. *)
Definition default_selection (meteorite_data : frame) : result selection :=
  let selected_types := available_types meteorite_data in
  let selected_year_range := (slider_min_year, slider_max_year) in
  let mass_min := fst (mass_slider meteorite_data) in
  let mass_max := snd (mass_slider meteorite_data) in
  result_bind (st_slider mass_min mass_max) (fun selected_mass_range =>
  Ok {| selected_types := selected_types;
        selected_year_range := selected_year_range;
        selected_mass_range := selected_mass_range |}).

End Sidebar.

(** The years the slider can give. *)
Definition slider_years (year_range : Z * Z) : Prop :=
  slider_min_year <= fst year_range <= slider_max_year
  /\ slider_min_year <= snd year_range <= slider_max_year.

(** The year column as the table shows it: the cast where it succeeds. *)
Definition shown_year (n : number) : number :=
  match astype_int n with
  | Ok y => y
  | Raise _ => n
  end.

Definition shown_row (r : record) : record := set_Year r (shown_year (Year r)).

(** The categories of the table, each once. *)
Definition categories : list string :=
  nodup string_dec (map snd (map_to_list meteorite_class)).

(** [sel1] asks for no more than [sel2]: fewer types, and ranges within. *)
Definition narrower (sel1 sel2 : selection) : Prop :=
  selected_types sel1 <> []
  /\ incl (selected_types sel1) (selected_types sel2)
  /\ F64.leb (fst (selected_mass_range sel2)) (fst (selected_mass_range sel1)) = true
  /\ F64.leb (snd (selected_mass_range sel1)) (snd (selected_mass_range sel2)) = true
  /\ fst (selected_year_range sel2) <= fst (selected_year_range sel1)
  /\ snd (selected_year_range sel1) <= snd (selected_year_range sel2).

(** ** The predicates of the specification *)

(** The three conditions of the Filter Engine on one record, in the words of
    the specification. *)
Definition category_selected (sel : selection) (r : record) : Prop :=
  exists t, Type_ r = Some t /\ In t (selected_types sel).

Definition mass_within (sel : selection) (r : record) : Prop :=
  F64.isna (Mass_g r) = false
  /\ F64.leb (fst (selected_mass_range sel)) (Mass_g r) = true
  /\ F64.leb (Mass_g r) (snd (selected_mass_range sel)) = true.

Definition year_within (year_range : Z * Z) (r : record) : Prop :=
  number_isna (Year r) = false
  /\ number_ge (Year r) (fst year_range) = true
  /\ number_le (Year r) (snd year_range) = true.

(** The same conditions as one boolean test; the category test is skipped
    when [types] is [false]. *)
Definition passes (types : bool) (sel : selection) (r : record) : bool :=
  (negb types || isin (selected_types sel) (Type_ r))
  && mass_mask (selected_mass_range sel) r
  && negb (number_isna (Year r))
  && year_mask (selected_year_range sel) r.

(** A record that qualifies for the Top-N-by-mass view. *)
Definition qualifies (year_range : Z * Z) (r : record) : bool :=
  negb (F64.isna (Mass_g r)) && negb (number_isna (Year r)) && year_mask year_range r.



(** What numpy promises of an argsort of the counts: the rows rearranged, in
    ascending order of count. *)
Definition sorts_by_count (sort : list (string * nat) -> list (string * nat)) : Prop :=
  forall s,
    Permutation (sort s) s
    /\ StronglySorted (fun a b => (snd a <= snd b)%nat) (sort s).

(** How many fields of [col] hold [k]. *)
Definition occurrences (k : string) (col : list (option string)) : nat :=
  length (List.filter (fun v => match v with Some k' => String.eqb k' k | None => false end) col).

Definition present {A} (v : option A) : bool :=
  match v with
  | Some _ => true
  | None => false
  end.

Fixpoint total (counts : list (string * nat)) : nat :=
  match counts with
  | [] => 0%nat
  | (_, n) :: rest => (n + total rest)%nat
  end.

(** The table of [count_values], step by step, and what it holds. *)
Definition count_step (acc : list (string * nat)) (v : option string) : list (string * nat) :=
  match v with
  | Some k => count_key k acc
  | None => acc
  end.

(** The keys of the table, in the order in which they were first met. *)
Definition add_key (k : string) (ks : list string) : list string :=
  if existsb (String.eqb k) ks then ks else ks ++ [k].

Definition key_step (ks : list string) (v : option string) : list string :=
  match v with
  | Some k => add_key k ks
  | None => ks
  end.

Definition first_keys (col : list (option string)) : list string := fold_left key_step col [].

(** The count held for [k]. *)
Definition count_of (k : string) (acc : list (string * nat)) : nat :=
  total (List.filter (fun p => String.eqb (fst p) k) acc).


(** ** The map: [map_locations] *)

(** A row of [df_map]: a row of [df] with the two added columns. *)
Record map_point := {
  point : record;
  lat : float;
  lon : float
}.

Definition set_Mass_g (r : record) (m : float) : record :=
  {| id := id r;
     Meteorite_Name := Meteorite_Name r;
     Classification := Classification r;
     Mass_g := m;
     Discovery_Type := Discovery_Type r;
     Year := Year r;
     Latitude := Latitude r;
     Longitude := Longitude r;
     Type_ := Type_ r |}.

Definition set_Type (r : record) (t : option string) : record :=
  {| id := id r;
     Meteorite_Name := Meteorite_Name r;
     Classification := Classification r;
     Mass_g := Mass_g r;
     Discovery_Type := Discovery_Type r;
     Year := Year r;
     Latitude := Latitude r;
     Longitude := Longitude r;
     Type_ := t |}.

(** [Series.fillna(value)] on a text column. *)
Definition fillna (value : string) (v : option string) : option string :=
  match v with
  | Some t => Some t
  | None => Some value
  end.

Definition add_lat_lon (r : record) : map_point :=
  {| point := r; lat := Latitude r; lon := Longitude r |}.

Definition on_point (f : record -> record) (m : map_point) : map_point :=
  {| point := f (point m); lat := lat m; lon := lon m |}.

Section Map.

(** [Series.round(2)] on one value: numpy's rounding to two decimals. *)
Variable round2 : float -> float.

(** The rows handed to the map layer. *)
Definition map_locations (df : frame) : list map_point :=
  let df_map :=
    List.filter (fun r => negb (F64.isna (Latitude r)) && negb (F64.isna (Longitude r))) df in
  let df_map := map add_lat_lon df_map in
  let df_map := map (on_point (fun r => set_Mass_g r (round2 (Mass_g r)))) df_map in
  let df_map := map (on_point (fun r => set_Type r (fillna "Unknown" (Type_ r)))) df_map in
  df_map.

End Map.

(** ** Chart 1: [chart_landings_over_time] *)

(** [a == b] and [a <= b] between two values of a numeric column. *)
Definition number_eqb (a b : number) : bool :=
  match a, b with
  | Int64 x, Int64 y => (x =? y)%Z
  | Float64 x, Float64 y => PrimFloat.eqb x y
  | Int64 x, Float64 y => PrimFloat.eqb (F64.of_Z x) y
  | Float64 x, Int64 y => PrimFloat.eqb x (F64.of_Z y)
  end.

Definition number_leb (a b : number) : bool :=
  match a, b with
  | Int64 x, Int64 y => (x <=? y)%Z
  | Float64 x, Float64 y => F64.leb x y
  | Int64 x, Float64 y => F64.leb (F64.of_Z x) y
  | Float64 x, Int64 y => F64.leb x (F64.of_Z y)
  end.

(** The distinct values of a list, in the order of their first appearance. *)
Definition uniq {K : Type} (eqb : K -> K -> bool) (l : list K) : list K :=
  fold_left (fun seen v => if existsb (eqb v) seen then seen else seen ++ [v]) l [].

(** A group of [groupby(['Year', 'Discovery Type'])]. *)
Definition group_key : Type := number * string.

Definition key_eqb (a b : group_key) : bool :=
  number_eqb (fst a) (fst b) && String.eqb (snd a) (snd b).

(** The order of the grouped index: by year, then by discovery type. *)
Definition key_leb (a b : group_key) : bool :=
  if number_eqb (fst a) (fst b) then String.leb (snd a) (snd b)
  else number_leb (fst a) (fst b).

(** The key of each row that belongs to a group; a row whose discovery type
    is missing belongs to none. *)
Definition group_rows (df : frame) : list group_key :=
  flat_map
    (fun r => match Discovery_Type r with Some t => [(Year r, t)] | None => [] end) df.

(** [groupby([...]).size().reset_index(name='Count')]: one line per group
    that occurs, in the order of the keys, with the number of its rows. *)
Definition groupby_size (keys : list group_key) : list (group_key * nat) :=
  map (fun k => (k, length (List.filter (key_eqb k) keys)))
    (argsort key_leb (uniq key_eqb keys)).

Record pivot_table := {
  index : list number;
  columns : list string;
  values : list (list nat)
}.

Definition lookup_count (yearly_counts : list (group_key * nat)) (y : number) (t : string)
  : option nat :=
  option_map snd (find (fun e => key_eqb (fst e) (y, t)) yearly_counts).

(** [pivot(index='Year', columns='Discovery Type', values='Count').fillna(0)] *)
Definition pivot_fillna (yearly_counts : list (group_key * nat)) : pivot_table :=
  let index :=
    argsort number_leb (uniq number_eqb (map (fun e => fst (fst e)) yearly_counts)) in
  let columns := sorted (uniq String.eqb (map (fun e => snd (fst e)) yearly_counts)) in
  {| index := index;
     columns := columns;
     values :=
       map (fun y =>
              map (fun t => match lookup_count yearly_counts y t with
                            | Some n => n
                            | None => 0%nat
                            end) columns) index |}.

Fixpoint position (name : string) (cols : list string) : option nat :=
  match cols with
  | [] => None
  | c :: cols' =>
      if String.eqb c name then Some 0%nat else option_map S (position name cols')
  end.

(** The points of one line: the index against the column [name], when the
    pivot has that column. *)
Definition line (p : pivot_table) (name : string) : option (list (number * nat)) :=
  match position name (columns p) with
  | Some j => Some (combine (index p) (map (fun row => nth j row 0%nat) (values p)))
  | None => None
  end.

Record time_series := {
  fell_line : option (list (number * nat));
  found_line : option (list (number * nat))
}.

Definition pivot_counts (df : frame) : pivot_table :=
  let yearly_counts :=
    groupby_size
      (group_rows (List.filter (fun r => negb (number_isna (Year r))) df)) in
  pivot_fillna yearly_counts.

Definition chart_landings_over_time (df : frame) : time_series :=
  {| fell_line := line (pivot_counts df) "Fell";
     found_line := line (pivot_counts df) "Found" |}.

(** A row of year [y] and discovery type [t]. *)
Definition landed (y : number) (t : string) (r : record) : bool :=
  number_eqb y (Year r) && option_string_eqb (Some t) (Discovery_Type r).

(** How many rows of [df] are of year [y] and discovery type [t], and how
    many are of discovery type [t]. *)
Definition landings (df : frame) (y : number) (t : string) : nat :=
  length (List.filter (landed y t) df).

Definition discovered (df : frame) (t : string) : nat :=
  length (List.filter (fun r => option_string_eqb (Some t) (Discovery_Type r)) df).

Fixpoint sum (l : list nat) : nat :=
  match l with
  | [] => 0%nat
  | n :: rest => (n + sum rest)%nat
  end.

(** Whether a row has both coordinates. *)
Definition located (r : record) : bool :=
  negb (F64.isna (Latitude r)) && negb (F64.isna (Longitude r)).
(** ** Sample data: the scenarios of the specification *)

Module Sample.

(** A reader of unsigned decimal integers, standing for the numeric parser. *)
Fixpoint decimal (acc : Z) (s : string) : option Z :=
  match s with
  | EmptyString => Some acc
  | String c s' =>
      if Text.is_digit c
      then decimal (10 * acc + (Z.of_N (N_of_ascii c) - 48)) s'
      else None
  end.

Definition parse_number (s : string) : option float :=
  match s with
  | EmptyString => None
  | _ => option_map F64.of_Z (decimal 0 s)
  end.

Definition line (i : Z) (name class : string) (mass : float) (year : cell) : Raw.record :=
  {| Raw.id := i;
     Raw.name := Some name;
     Raw.nametype := Some "Valid"%string;
     Raw.recclass := Str class;
     Raw.mass_g := mass;
     Raw.fall := Some "Found"%string;
     Raw.year := year;
     Raw.reclat := 0%float;
     Raw.reclong := 0%float;
     Raw.GeoLocation := None |}.

Definition csv : list Raw.record :=
  [ line 1 "Aachen" "L6" 500%float (Number 2000%float);
    line 2 "Aarhus" "H5" 1500%float (Str "2000");
    line 3 "Abee" "CM" 3000%float (Number 1999%float);
    line 4 "Acapulco" " Iron, IIAB " 100%float (Str "unknown");
    line 5 "Achiras" "L6" PrimFloat.nan (Number 2000%float) ]%string.

Definition cleaned_data : list cleaned :=
  match read_meteorite_date parse_number csv with
  | Ok (df, _) => df
  | Raise _ => []
  end.

Definition meteorite_data : frame := classify cleaned_data.

Definition everything : selection :=
  {| selected_types := ["Carbonaceous Chondrite"; "Ordinary Chondrite"]%string;
     selected_year_range := (1399, 2025);
     selected_mass_range := (100%float, 3000%float) |}.

Definition no_type : selection :=
  {| selected_types := [];
     selected_year_range := (1399, 2025);
     selected_mass_range := (100%float, 3000%float) |}.

Definition year_2000 : selection :=
  {| selected_types := ["Carbonaceous Chondrite"; "Ordinary Chondrite"]%string;
     selected_year_range := (2000, 2000);
     selected_mass_range := (100%float, 3000%float) |}.

(** The year 2000 and the whole mass range of the slider, with one type
    selected: no carbonaceous chondrite of the sample is of that year. *)
Definition carbonaceous_2000 : selection :=
  {| selected_types := ["Carbonaceous Chondrite"]%string;
     selected_year_range := (2000, 2000);
     selected_mass_range := (100%float, 3000%float) |}.

Definition ordinary_2000 : selection :=
  {| selected_types := ["Ordinary Chondrite"]%string;
     selected_year_range := (2000, 2000);
     selected_mass_range := (100%float, 3000%float) |}.

(** One pass of [main] over the sample data, and the page it shows. *)
Definition pass (sel : selection) : result page * heap :=
  main 0%nat sel [meteorite_data].

Definition shown_page (sel : selection) : page :=
  match fst (pass sel) with
  | Ok p => p
  | Raise _ =>
      {| filtered_records := 0; total_data_count := 0;
         chart2 := None; chart3 := None; table := 0%nat |}
  end.





(** A row of a meteorite that was seen to fall, and the rows displayed for
    [everything] together with it. *)
Definition fallen : record :=
  {| id := 6;
     Meteorite_Name := Some "Adhi Kot"%string;
     Classification := Some "EH"%string;
     Mass_g := 4239%float;
     Discovery_Type := Some "Fell"%string;
     Year := Int64 1919;
     Latitude := PrimFloat.nan;
     Longitude := 71.75%float;
     Type_ := Some "Enstatite Chondrite"%string |}.

Definition displayed : frame :=
  fallen :: map shown_row (List.filter (passes true everything) meteorite_data).

End Sample.

(** ** Facts on binary64 comparison and division *)

Module F64Facts.
Import F64.

Section Compare.

Lemma SFcompare_nan_l y : SFcompare S754_nan y = None.
Proof. reflexivity. Qed.

Lemma SFcompare_nan_r x : SFcompare x S754_nan = None.
Proof. destruct x; reflexivity. Qed.

Lemma SFcompare_refl x : x <> S754_nan -> SFcompare x x = Some Eq.
Proof.
  destruct x as [s|s| |s m e]; try congruence; intros _; unfold SFcompare.
  - reflexivity.
  - destruct s; reflexivity.
  - rewrite Z.compare_refl. change (Pos.compare_cont Eq m m) with (Pos.compare m m).
    rewrite Pos.compare_refl. destruct s; reflexivity.
Qed.

Lemma SFcompare_antisym x y c :
  SFcompare x y = Some c -> SFcompare y x = Some (CompOpp c).
Proof.
  destruct x as [sx|sx| |sx mx ex], y as [sy|sy| |sy my ey]; unfold SFcompare;
    try discriminate; intros [= <-]; try (destruct sx; reflexivity);
    try (destruct sy; reflexivity); try (destruct sx, sy; reflexivity).
  change (Pos.compare_cont Eq mx my) with (Pos.compare mx my).
  change (Pos.compare_cont Eq my mx) with (Pos.compare my mx).
  rewrite (Z.compare_antisym ex ey), (Pos.compare_antisym mx my).
  destruct sx, sy; try reflexivity;
    destruct (ex ?= ey); simpl; try reflexivity;
    destruct (mx ?= my)%positive; reflexivity.
Qed.

Lemma is_nan_spec x : isna x = true <-> Prim2SF x = S754_nan.
Proof.
  unfold isna, is_nan. rewrite FloatAxioms.eqb_spec. unfold SFeqb. split.
  - destruct (Prim2SF x) eqn:E; try reflexivity;
      rewrite SFcompare_refl by discriminate; discriminate.
  - intros ->. reflexivity.
Qed.

Lemma notna_spec x : isna x = false <-> Prim2SF x <> S754_nan.
Proof.
  rewrite <- is_nan_spec. destruct (isna x); split; congruence.
Qed.

Lemma leb_notna_l x y : leb x y = true -> isna x = false.
Proof.
  unfold leb. rewrite FloatAxioms.leb_spec. unfold SFleb. intros H.
  apply notna_spec. intros E. rewrite E in H. discriminate.
Qed.

Lemma leb_notna_r x y : leb x y = true -> isna y = false.
Proof.
  unfold leb. rewrite FloatAxioms.leb_spec. unfold SFleb. intros H.
  apply notna_spec. intros E. rewrite E, SFcompare_nan_r in H. discriminate.
Qed.

Lemma leb_refl x : isna x = false -> leb x x = true.
Proof.
  intros H. unfold leb. rewrite FloatAxioms.leb_spec. unfold SFleb.
  rewrite SFcompare_refl; [reflexivity | now apply notna_spec].
Qed.

Lemma SFcompare_some x y :
  x <> S754_nan -> y <> S754_nan -> exists c, SFcompare x y = Some c.
Proof.
  destruct x, y; try congruence; intros _ _; simpl; eauto.
Qed.

Lemma leb_total x y :
  isna x = false -> isna y = false -> leb x y = true \/ leb y x = true.
Proof.
  intros Hx%notna_spec Hy%notna_spec. unfold leb. rewrite !FloatAxioms.leb_spec. unfold SFleb.
  destruct (SFcompare_some _ _ Hx Hy) as [c Hc].
  rewrite (SFcompare_antisym _ _ _ Hc), Hc. destruct c; simpl; auto.
Qed.

Lemma lexle_trans a b c : lexle a b -> lexle b c -> lexle a c.
Proof.
  destruct a as [[a1 a2] a3], b as [[b1 b2] b3], c as [[c1 c2] c3].
  unfold lexle. lia.
Qed.

Ltac key_cases :=
  unfold lexle, key; simpl; split; intro;
  first [reflexivity | discriminate | lia].

Lemma SFleb_key x y :
  x <> S754_nan -> y <> S754_nan ->
  (SFleb x y = true <-> lexle (key x) (key y)).
Proof.
  intros Hx Hy. unfold SFleb, SFcompare.
  destruct x as [sx|sx| |sx mx ex], y as [sy|sy| |sy my ey]; try congruence;
    try (destruct sx; try destruct sy; key_cases).
  change (Pos.compare_cont Eq mx my) with (Pos.compare mx my).
  destruct sx, sy; try key_cases;
    destruct (Z.compare_spec ex ey); try key_cases;
    destruct (Pos.compare_spec mx my); key_cases.
Qed.

Lemma leb_trans x y z : leb x y = true -> leb y z = true -> leb x z = true.
Proof.
  intros Hxy Hyz.
  pose proof (leb_notna_l _ _ Hxy) as Hx%notna_spec.
  pose proof (leb_notna_r _ _ Hxy) as Hy%notna_spec.
  pose proof (leb_notna_r _ _ Hyz) as Hz%notna_spec.
  unfold leb in *. rewrite FloatAxioms.leb_spec in *.
  apply SFleb_key in Hxy, Hyz; try assumption.
  apply SFleb_key; try assumption. eapply lexle_trans; eassumption.
Qed.

End Compare.

(** Rounding a non-negative mantissa never produces NaN, so dividing a number
    by a finite non-zero constant yields a number. *)
Section Division.

Lemma shr_1_nonneg mrs : 0 <= shr_m mrs -> 0 <= shr_m (shr_1 mrs).
Proof.
  destruct mrs as [m r s]. simpl. destruct m as [|p|p]; [| destruct p | lia]; simpl; lia.
Qed.

Lemma iter_shr_1_nonneg p mrs :
  0 <= shr_m mrs -> 0 <= shr_m (SpecFloat.iter_pos shr_1 p mrs).
Proof.
  revert mrs. induction p as [p IH|p IH|]; intros mrs H; simpl.
  - apply IH, IH, shr_1_nonneg, H.
  - apply IH, IH, H.
  - apply shr_1_nonneg, H.
Qed.

Lemma shr_fexp_nonneg m e l :
  0 <= m -> 0 <= shr_m (fst (shr_fexp prec emax m e l)).
Proof.
  intros H. unfold shr_fexp, shr.
  assert (H0 : 0 <= shr_m (shr_record_of_loc m l))
    by (destruct l as [|[]]; simpl; exact H).
  destruct (fexp prec emax (Zdigits2 m + e) - e); simpl; try exact H0.
  now apply iter_shr_1_nonneg.
Qed.

Lemma round_nearest_even_nonneg m l : 0 <= m -> 0 <= round_nearest_even m l.
Proof.
  intros H. unfold round_nearest_even. destruct l as [|[]]; try lia.
  destruct (Z.even m); lia.
Qed.

Lemma binary_round_aux_not_nan s m e l :
  0 <= m -> binary_round_aux prec emax s m e l <> S754_nan.
Proof.
  intros H. unfold binary_round_aux.
  pose proof (shr_fexp_nonneg m e l H) as H1.
  destruct (shr_fexp prec emax m e l) as [mrs' e'] eqn:E1. simpl in H1.
  pose proof (shr_fexp_nonneg _ e' loc_Exact
                (round_nearest_even_nonneg _ (loc_of_shr_record mrs') H1)) as H2.
  destruct (shr_fexp prec emax (round_nearest_even _ _) e' loc_Exact) as [mrs'' e''].
  simpl in H2. destruct (shr_m mrs'') as [|q|q]; try discriminate; try lia.
  destruct (e'' <=? emax - prec); discriminate.
Qed.

Lemma SFdiv_core_nonneg mx ex my ey :
  0 <= fst (fst (SFdiv_core_binary prec emax (Z.pos mx) ex (Z.pos my) ey)).
Proof.
  unfold SFdiv_core_binary.
  set (s := ex - ey - _).
  set (m' := match s with Z.pos _ => Z.shiftl (Z.pos mx) s | 0 => Z.pos mx | Z.neg _ => 0 end).
  assert (Hm : 0 <= m').
  { subst m'. destruct s; try lia. apply Z.shiftl_nonneg. lia. }
  pose proof (Z.div_eucl_eq m' (Z.pos my) ltac:(lia)) as Hq.
  pose proof (Z.mod_pos_bound m' (Z.pos my) ltac:(lia)) as Hr.
  unfold Z.modulo in Hr.
  destruct (Z.div_eucl m' (Z.pos my)) as [q r]. simpl. nia.
Qed.

Lemma SFdiv_finite_not_nan x sy my ey :
  x <> S754_nan -> SFdiv prec emax x (S754_finite sy my ey) <> S754_nan.
Proof.
  destruct x as [sx|sx| |sx mx ex]; try congruence; intros _; try discriminate.
  unfold SFdiv.
  pose proof (SFdiv_core_nonneg mx ex my ey) as H.
  destruct (SFdiv_core_binary prec emax (Z.pos mx) ex (Z.pos my) ey) as [[mz ez] lz].
  apply binary_round_aux_not_nan. exact H.
Qed.

Lemma div_notna x y sy my ey :
  Prim2SF y = S754_finite sy my ey ->
  isna x = false -> isna (PrimFloat.div x y) = false.
Proof.
  intros Hy Hx%notna_spec. apply notna_spec.
  rewrite FloatAxioms.div_spec, Hy. now apply SFdiv_finite_not_nan.
Qed.

End Division.

End F64Facts.


(** ** Facts on the text operations *)

Module TextFacts.
Import Text.

Lemma re_sub_digits_no_digit s : no_digit (re_sub_digits s).
Proof.
  unfold no_digit. induction s as [|a s IH]; simpl; intros c H.
  - contradiction.
  - destruct (is_digit a) eqn:E; [now apply IH|].
    destruct H as [<-|H]; [exact E | now apply IH].
Qed.

Lemma chars_lstrip s c : In c (chars (lstrip s)) -> In c (chars s).
Proof.
  induction s as [|a s IH]; simpl; [tauto|].
  destruct (is_space a); simpl; [right; now apply IH | tauto].
Qed.

Lemma chars_rstrip s c : In c (chars (rstrip s)) -> In c (chars s).
Proof.
  induction s as [|a s IH]; simpl; [tauto|].
  destruct (rstrip s) as [|b t] eqn:E.
  - destruct (is_space a); simpl; tauto.
  - simpl. intros [H|H]; [now left | right; apply IH; exact H].
Qed.

Lemma strip_no_digit s : no_digit s -> no_digit (strip s).
Proof.
  intros H c Hc. apply H. unfold strip in Hc.
  now apply chars_lstrip, chars_rstrip.
Qed.

Lemma lstrip_no_leading s : no_leading_space (lstrip s).
Proof.
  unfold no_leading_space. induction s as [|a s IH]; simpl; intros c t H.
  - discriminate.
  - destruct (is_space a) eqn:E; [now apply (IH c t)|].
    injection H as -> _. exact E.
Qed.

Lemma rstrip_no_leading s : no_leading_space s -> no_leading_space (rstrip s).
Proof.
  unfold no_leading_space. destruct s as [|a s]; simpl; intros H c t E.
  - discriminate.
  - assert (Ha : is_space a = false) by now apply (H a s).
    rewrite Ha in E. destruct (rstrip s); injection E as <- _; exact Ha.
Qed.

Lemma rstrip_no_trailing s : no_trailing_space (rstrip s).
Proof.
  unfold no_trailing_space. induction s as [|a s IH]; simpl; intros t c H.
  - destruct t; discriminate.
  - destruct (rstrip s) as [|b u] eqn:E.
    + destruct (is_space a) eqn:Ea.
      * destruct t; discriminate.
      * destruct t as [|x t]; simpl in H.
        -- injection H as <-. exact Ea.
        -- injection H as _ H. destruct t; discriminate.
    + destruct t as [|x t]; simpl in H; [discriminate|].
      injection H as _ H. now apply (IH t c).
Qed.

Lemma strip_clean s :
  no_leading_space (strip s) /\ no_trailing_space (strip s).
Proof.
  split.
  - apply rstrip_no_leading, lstrip_no_leading.
  - apply rstrip_no_trailing.
Qed.

End TextFacts.

(** ** Running the frame operations *)

Section Heap.

Implicit Types (h : heap) (df : frame) (r : ref).

Lemma bind_run {A B} (m : M A) (k : A -> M B) h a h' :
  m h = (Ok a, h') -> bind m k h = k a h'.
Proof. unfold bind. now intros ->. Qed.

Lemma lookup_new h df : (h ++ [df]) !! length h = Some df.
Proof. now apply list_lookup_middle. Qed.

Lemma run_read_frame h r df : h !! r = Some df -> read_frame r h = (Ok df, h).
Proof. unfold read_frame. now intros ->. Qed.

Lemma run_df_copy h r df :
  h !! r = Some df -> df_copy r h = (Ok (length h), h ++ [df]).
Proof.
  intros H. unfold df_copy. now rewrite (bind_run _ _ _ _ _ (run_read_frame _ _ _ H)).
Qed.

Lemma run_df_getitem_mask h r df mask :
  h !! r = Some df ->
  df_getitem_mask r mask h = (Ok (length h), h ++ [List.filter mask df]).
Proof.
  intros H. unfold df_getitem_mask.
  now rewrite (bind_run _ _ _ _ _ (run_read_frame _ _ _ H)).
Qed.

Lemma run_df_dropna_Year h r df :
  h !! r = Some df ->
  df_dropna_Year r h
  = (Ok (length h), h ++ [List.filter (fun x => negb (number_isna (Year x))) df]).
Proof.
  intros H. unfold df_dropna_Year.
  now rewrite (bind_run _ _ _ _ _ (run_read_frame _ _ _ H)).
Qed.

Lemma filter_filter {A} (p q : A -> bool) (l : list A) :
  List.filter q (List.filter p l) = List.filter (fun x => p x && q x) l.
Proof.
  induction l as [|a l IH]; simpl; [reflexivity|].
  destruct (p a); simpl; [destruct (q a)|]; now rewrite IH.
Qed.

Ltac run_step :=
  erewrite bind_run
    by (first [apply run_df_copy | apply run_df_getitem_mask | apply run_df_dropna_Year];
        first [eassumption | apply lookup_new]).

(** The filters leave the heap they start from in place, put their
    intermediate frames after it, and return the last frame allocated: the
    rows of [meteorite_data] that pass, in their order. *)
Lemma run_apply_filters h md canon sel :
  h !! md = Some canon ->
  exists temporaries,
    apply_filters md sel h
    = (Ok (length (h ++ temporaries)),
       (h ++ temporaries)
       ++ [List.filter (passes (negb (is_empty (selected_types sel))) sel) canon]).
Proof.
  intros H. unfold apply_filters.
  destruct (selected_types sel) as [|t ts] eqn:Et.
  - exists [canon;
            List.filter (mass_mask (selected_mass_range sel)) canon;
            List.filter (fun x => negb (number_isna (Year x)))
              (List.filter (mass_mask (selected_mass_range sel)) canon)].
    run_step. unfold ret at 1. unfold bind at 1. do 3 run_step. unfold ret.
    rewrite !filter_filter.
    rewrite <- !app_assoc. reflexivity.
  - set (m := fun x : record => isin (t :: ts) (Type_ x)).
    exists [canon;
            List.filter m canon;
            List.filter (mass_mask (selected_mass_range sel)) (List.filter m canon);
            List.filter (fun x => negb (number_isna (Year x)))
              (List.filter (mass_mask (selected_mass_range sel)) (List.filter m canon))].
    do 5 run_step. unfold ret.
    rewrite !filter_filter.
    rewrite <- !app_assoc. unfold passes. rewrite Et. reflexivity.
Qed.

Lemma lookup_old h h1 h2 r df :
  h !! r = Some df -> ((h ++ h1) ++ h2) !! r = Some df.
Proof. intros H. now apply lookup_app_l_Some, lookup_app_l_Some. Qed.

(** The display step writes at its own reference only, whether the cast
    succeeds or raises. *)
Lemma run_df_Year_astype_int h r :
  exists res df, df_Year_astype_int r h = (res, h) \/ df_Year_astype_int r h = (res, <[r := df]> h).
Proof.
  unfold df_Year_astype_int, bind, read_frame, lift, write_frame.
  destruct (h !! r) as [df|]; [|exists (Raise UnboundReference), []; now left].
  destruct (result_mapM astype_int (map Year df)) as [col|e].
  - exists (Ok tt), (set_Year_column df col). now right.
  - exists (Raise e), []. now left.
Qed.

(** The whole filtering block: old frames stay, the result is a new one. *)
Lemma run_filter_for_display h md canon sel :
  h !! md = Some canon ->
  exists res h',
    filter_for_display md sel h = (res, h')
    /\ h' !! md = Some canon
    /\ (forall (r : ref) (df : frame), h !! r = Some df -> h' !! r = Some df)
    /\ (forall fd, res = Ok fd ->
                   h !! fd = None /\ fd <> md /\ exists rows, h' !! fd = Some rows).
Proof.
  intros Hmd.
  destruct (run_apply_filters h md canon sel Hmd) as [tmp Hrun].
  set (rows := List.filter _ canon) in Hrun.
  set (h1 := (h ++ tmp) ++ [rows]) in *.
  assert (Hold : forall (r : ref) (df : frame), h !! r = Some df -> h1 !! r = Some df)
    by (intros r df Hr; now apply lookup_old).
  assert (Hfresh : forall (r : ref) (df : frame),
             h !! r = Some df -> r <> length (h ++ tmp)).
  { intros r df Hr%lookup_lt_Some. rewrite length_app. lia. }
  unfold filter_for_display. rewrite (bind_run _ _ _ _ _ Hrun).
  destruct (run_df_Year_astype_int h1 (length (h ++ tmp))) as (res & df' & [E|E]);
    unfold bind; rewrite E.
  - exists (match res with Ok _ => Ok (length (h ++ tmp)) | Raise e => Raise e end), h1.
    split; [now destruct res|]. split; [now apply Hold|]. split; [exact Hold|].
    intros fd Hfd. destruct res; [|discriminate]. injection Hfd as <-.
    split; [apply lookup_ge_None_2; rewrite length_app; lia|].
    split; [intros E'; now apply (Hfresh md canon Hmd)|].
    exists rows. apply lookup_new.
  - exists (match res with Ok _ => Ok (length (h ++ tmp)) | Raise e => Raise e end),
      (<[length (h ++ tmp) := df']> h1).
    split; [now destruct res|].
    assert (Hold' : forall (r : ref) (df : frame),
               h !! r = Some df -> <[length (h ++ tmp) := df']> h1 !! r = Some df).
    { intros r df Hr. rewrite list_lookup_insert_ne; [now apply Hold|].
      intros E'. now apply (Hfresh r df Hr). }
    split; [now apply Hold'|]. split; [exact Hold'|].
    intros fd Hfd. destruct res; [|discriminate]. injection Hfd as <-.
    split; [apply lookup_ge_None_2; rewrite length_app; lia|].
    split; [intros E'; now apply (Hfresh md canon Hmd)|].
    exists df'. apply list_lookup_insert_eq. subst h1. rewrite !length_app. simpl. lia.
Qed.

(** One pass of [main] that completes: the third chart is drawn from
    [meteorite_data] and the year range, and only when some row is shown. *)
Lemma run_main h md canon sel p h' :
  h !! md = Some canon ->
  main md sel h = (Ok p, h') ->
  chart3 p = (if (filtered_records p =? 0)%nat then None
              else Some (chart_top_mass_by_year canon (selected_year_range sel)))
  /\ total_data_count p = length canon.
Proof.
  intros Hmd Hrun.
  destruct (run_filter_for_display h md canon sel Hmd)
    as (res & h1 & Hf & Hmd1 & _ & Hres).
  unfold main in Hrun. unfold bind at 1 in Hrun. rewrite Hf in Hrun.
  destruct res as [fd|e]; [|discriminate].
  destruct (Hres fd eq_refl) as (_ & _ & shown & Hfd).
  rewrite (bind_run _ _ _ _ _ (run_read_frame _ _ _ Hfd)) in Hrun.
  rewrite (bind_run _ _ _ _ _ (run_read_frame _ _ _ Hmd1)) in Hrun.
  unfold ret in Hrun. injection Hrun as <- <-. simpl.
  split; [|reflexivity]. unfold get_df_count. now destruct shown.
Qed.

End Heap.
(** ** The boolean tests against the predicates of the specification *)

Section Masks.

Import F64Facts.

Lemma isin_spec values v :
  isin values v = true <-> exists t, v = Some t /\ In t values.
Proof.
  unfold isin. destruct v as [s|].
  - rewrite existsb_exists. split.
    + intros (t & Hin & E). apply String.eqb_eq in E. subst. eauto.
    + intros (t & [= ->] & Hin). exists t. split; [exact Hin | apply String.eqb_refl].
  - split; [discriminate | intros (t & E & _); discriminate].
Qed.

Lemma mass_mask_spec sel r :
  mass_mask (selected_mass_range sel) r = true <-> mass_within sel r.
Proof.
  unfold mass_mask, mass_within, F64.geb. rewrite andb_true_iff. split.
  - intros [H1 H2]. split; [|split]; try assumption. exact (leb_notna_l _ _ H2).
  - intros (_ & H1 & H2). now split.
Qed.

Lemma year_mask_spec year_range r :
  negb (number_isna (Year r)) = true /\ year_mask year_range r = true
  <-> year_within year_range r.
Proof.
  unfold year_mask, year_within. rewrite !andb_true_iff, negb_true_iff. tauto.
Qed.

Lemma passes_spec types sel r :
  passes types sel r = true
  <-> (types = true -> category_selected sel r)
      /\ mass_within sel r /\ year_within (selected_year_range sel) r.
Proof.
  unfold passes, category_selected.
  rewrite !andb_true_iff, orb_true_iff, mass_mask_spec, isin_spec.
  rewrite <- (year_mask_spec (selected_year_range sel) r).
  destruct types; simpl; intuition congruence.
Qed.

(** A missing mass or a missing year never passes. *)
Lemma passes_present types sel r :
  passes types sel r = true ->
  F64.isna (Mass_g r) = false /\ number_isna (Year r) = false.
Proof.
  intros (_ & (Hm & _) & (Hy & _))%passes_spec. now split.
Qed.

Lemma filter_is_sublist {A} (p : A -> bool) (l : list A) : sublist (List.filter p l) l.
Proof.
  induction l as [|a l IH]; simpl; [constructor|].
  destruct (p a); now constructor.
Qed.

End Masks.

(** ** The loader, column by column *)

Section LoaderFacts.

Variable parse_number : string -> option float.

Lemma to_numeric_coerce col :
  to_numeric parse_number errors_coerce col = Ok (map (coerced parse_number) col).
Proof.
  unfold to_numeric. induction col as [|c col IH]; simpl; [reflexivity|].
  rewrite IH. destruct c as [x|s]; simpl; [reflexivity|].
  destruct (parse_number s); reflexivity.
Qed.

Lemma set_columns_map (f : Raw.record -> option string) (g : Raw.record -> float) df :
  set_columns df (map f df) (map g df) = map (fun r => renamed r (f r) (g r)) df.
Proof. induction df as [|r df IH]; simpl; now rewrite ?IH. Qed.

(** The loader raises exactly when [Series.str] refuses the classification
    column; otherwise it returns the cleaned rows and the number of lines. *)
Lemma run_read_meteorite_date csv :
  read_meteorite_date parse_number csv
  = if str_accepts (map Raw.recclass csv)
    then Ok (map (cleaned_row parse_number) csv, length csv)
    else Raise AttributeError.
Proof.
  unfold read_meteorite_date, str_accessor.
  destruct (str_accepts (map Raw.recclass csv)); [|reflexivity].
  simpl. rewrite to_numeric_coerce. simpl. rewrite !map_map.
  now rewrite (set_columns_map (fun r => clean_classification (text_of (Raw.recclass r)))
                 (fun r => coerced parse_number (Raw.year r))).
Qed.

Lemma read_meteorite_date_Ok csv df n :
  read_meteorite_date parse_number csv = Ok (df, n) ->
  str_accepts (map Raw.recclass csv) = true
  /\ df = map (cleaned_row parse_number) csv /\ n = length csv.
Proof.
  rewrite run_read_meteorite_date.
  destruct (str_accepts (map Raw.recclass csv)); [|discriminate].
  intros [= <- <-]. now repeat split.
Qed.

End LoaderFacts.

Lemma lookup_map {A B} (f : A -> B) (l : list A) (i : nat) :
  map f l !! i = option_map f (l !! i).
Proof.
  revert i. induction l as [|a l IH]; intros [|i]; simpl; try reflexivity. apply IH.
Qed.

Lemma clean_classification_clean v code :
  clean_classification v = Some code ->
  Text.no_digit code /\ Text.no_leading_space code /\ Text.no_trailing_space code.
Proof.
  destruct v as [s|]; simpl; [|discriminate]. intros [= <-].
  split; [|apply TextFacts.strip_clean].
  apply TextFacts.strip_no_digit, TextFacts.re_sub_digits_no_digit.
Qed.

Lemma classify_Type (df : list cleaned) (r : record) :
  In r (classify df) -> Type_ r = map_class (Classification r).
Proof.
  unfold classify. rewrite in_map_iff. intros (c & <- & _). reflexivity.
Qed.

(** ** The sort: a rearrangement, in order *)

Section SortFacts.

Context {A : Type}.
Variable isna : A -> bool.
Variable leb : A -> A -> bool.

Hypothesis leb_trans :
  forall x y z, leb x y = true -> leb y z = true -> leb x z = true.
Hypothesis leb_total :
  forall x y, isna x = false -> isna y = false -> leb x y = true \/ leb y x = true.

Local Abbreviation R := (fun a b : A => leb a b = true).

Lemma insert_perm x l : Permutation (insert leb x l) (x :: l).
Proof.
  induction l as [|y l IH]; simpl; [reflexivity|].
  destruct (leb x y); [reflexivity|].
  rewrite IH. apply perm_swap.
Qed.

Lemma argsort_perm l : Permutation (argsort leb l) l.
Proof.
  induction l as [|x l IH]; simpl; [reflexivity|].
  rewrite insert_perm. now constructor.
Qed.

Lemma insert_sorted x l :
  isna x = false -> Forall (fun y => isna y = false) l ->
  StronglySorted R l -> StronglySorted R (insert leb x l).
Proof.
  intros Hx Hl Hs. induction Hs as [|y l Hs IH Hy]; simpl.
  - repeat constructor.
  - inversion Hl as [|? ? Hy' Hl']; subst.
    destruct (leb x y) eqn:E.
    + constructor; [now constructor|]. constructor; [exact E|].
      eapply List.Forall_impl; [|exact Hy]. intros z Hz. now apply (leb_trans x y z).
    + constructor; [now apply IH|].
      assert (Hyx : R y x)
        by (destruct (leb_total x y Hx Hy') as [H|H]; [congruence | exact H]).
      eapply Permutation_Forall; [symmetry; apply insert_perm|].
      now constructor.
Qed.

Lemma argsort_sorted l :
  Forall (fun y => isna y = false) l -> StronglySorted R (argsort leb l).
Proof.
  induction 1 as [|x l Hx Hl IH]; simpl; [constructor|].
  apply insert_sorted; [exact Hx | | exact IH].
  eapply Permutation_Forall; [symmetry; apply argsort_perm | exact Hl].
Qed.

Lemma sorted_impl (S T : A -> A -> Prop) l :
  (forall a b, S a b -> T a b) -> StronglySorted S l -> StronglySorted T l.
Proof.
  intros HST. induction 1 as [|x l Hs IH Hx]; constructor; [exact IH|].
  eapply List.Forall_impl; [|exact Hx]. intros b. apply HST.
Qed.

Lemma sorted_snoc (S : A -> A -> Prop) l x :
  StronglySorted S l -> Forall (fun z => S z x) l -> StronglySorted S (l ++ [x]).
Proof.
  induction 1 as [|y l Hs IH Hy]; intros Hx; simpl.
  - repeat constructor.
  - inversion Hx as [|? ? Hyx Hx']; subst. constructor; [now apply IH|].
    apply List.Forall_app. split; [exact Hy | now repeat constructor].
Qed.

Lemma sorted_rev (S : A -> A -> Prop) l :
  StronglySorted S l -> StronglySorted (fun a b => S b a) (rev l).
Proof.
  induction 1 as [|x l Hs IH Hx]; simpl; [constructor|].
  apply sorted_snoc; [exact IH|]. now apply List.Forall_rev.
Qed.

(** [nargsort] when no key is missing. *)
Lemma nargsort_notna ascending l :
  Forall (fun y => isna y = false) l ->
  nargsort isna leb ascending l
  = if ascending then argsort leb l else rev (argsort leb (rev l)).
Proof.
  intros H. unfold nargsort, nargsort_with.
  assert (E : List.filter (fun x => negb (isna x)) l = l /\ List.filter isna l = []).
  { induction H as [|x l Hx Hl [IH1 IH2]]; simpl; [now split|].
    rewrite Hx. simpl. now rewrite IH1, IH2. }
  destruct E as [-> ->]. apply app_nil_r.
Qed.

Lemma filter_partition_perm (p : A -> bool) l :
  Permutation (List.filter (fun x => negb (p x)) l ++ List.filter p l) l.
Proof.
  induction l as [|x l IH]; simpl; [reflexivity|].
  destruct (p x); simpl.
  - rewrite <- Permutation_middle. now constructor.
  - now constructor.
Qed.

Lemma nargsort_with_perm (sort : list A -> list A) ascending l :
  (forall l', Permutation (sort l') l') ->
  Permutation (nargsort_with isna sort ascending l) l.
Proof.
  intros Hsort. unfold nargsort_with.
  etransitivity; [|apply (filter_partition_perm isna l)].
  apply Permutation_app_tail. destruct ascending.
  - apply Hsort.
  - rewrite <- Permutation_rev, Hsort. symmetry. apply Permutation_rev.
Qed.

Lemma nargsort_perm ascending l : Permutation (nargsort isna leb ascending l) l.
Proof.
  unfold nargsort, nargsort_with. etransitivity; [|apply (filter_partition_perm isna l)].
  apply Permutation_app_tail. destruct ascending.
  - apply argsort_perm.
  - rewrite <- Permutation_rev, argsort_perm. symmetry. apply Permutation_rev.
Qed.

Lemma nargsort_ascending_sorted l :
  Forall (fun y => isna y = false) l -> StronglySorted R (nargsort isna leb true l).
Proof.
  intros H. rewrite nargsort_notna by exact H. now apply argsort_sorted.
Qed.

Lemma nargsort_descending_sorted l :
  Forall (fun y => isna y = false) l ->
  StronglySorted (fun a b => R b a) (nargsort isna leb false l).
Proof.
  intros H. rewrite nargsort_notna by exact H.
  apply sorted_rev, argsort_sorted. now apply List.Forall_rev.
Qed.

End SortFacts.
(** ** Counting values *)

Section Counts.

Implicit Types (k t : string) (acc : list (string * nat)) (col : list (option string)).

Lemma existsb_eqb_In k ks : existsb (String.eqb k) ks = true <-> In k ks.
Proof.
  rewrite existsb_exists. split.
  - intros (x & Hin & E%String.eqb_eq). now subst.
  - intros H. exists k. split; [exact H | apply String.eqb_refl].
Qed.

Lemma keys_count_key k acc : map fst (count_key k acc) = add_key k (map fst acc).
Proof.
  unfold add_key. induction acc as [|[k' n] acc IH]; simpl; [reflexivity|].
  rewrite (String.eqb_sym k k'). destruct (String.eqb k' k); simpl; [reflexivity|].
  rewrite IH. now destruct (existsb (String.eqb k) (map fst acc)).
Qed.

Lemma keys_fold col acc :
  map fst (fold_left count_step col acc) = fold_left key_step col (map fst acc).
Proof.
  revert acc. induction col as [|v col IH]; intros acc; simpl; [reflexivity|].
  rewrite IH. destruct v as [k|]; simpl; [now rewrite keys_count_key | reflexivity].
Qed.

Lemma keys_count_values col : map fst (count_values col) = first_keys col.
Proof. apply (keys_fold col []). Qed.

Lemma total_count_key k acc : total (count_key k acc) = S (total acc).
Proof.
  induction acc as [|[k' n] acc IH]; simpl; [reflexivity|].
  destruct (String.eqb k' k); simpl; [reflexivity | rewrite IH; lia].
Qed.

Lemma total_fold col acc :
  total (fold_left count_step col acc)
  = (total acc + length (List.filter present col))%nat.
Proof.
  revert acc. induction col as [|v col IH]; intros acc; simpl; [lia|].
  rewrite IH. destruct v as [k|]; simpl; [rewrite total_count_key; lia | reflexivity].
Qed.

Lemma count_of_count_key k k' acc :
  count_of k (count_key k' acc)
  = (count_of k acc + if String.eqb k' k then 1 else 0)%nat.
Proof.
  unfold count_of. induction acc as [|[k0 n] acc IH]; simpl.
  - destruct (String.eqb k' k); reflexivity.
  - destruct (String.eqb k0 k') eqn:E0; simpl.
    + apply String.eqb_eq in E0. subst k0.
      destruct (String.eqb k' k); simpl; lia.
    + destruct (String.eqb k0 k); simpl; rewrite IH; lia.
Qed.

Lemma count_of_fold k col acc :
  count_of k (fold_left count_step col acc)
  = (count_of k acc + occurrences k col)%nat.
Proof.
  unfold occurrences.
  revert acc. induction col as [|v col IH]; intros acc; simpl; [lia|].
  rewrite IH. destruct v as [k'|]; simpl; [|reflexivity].
  rewrite count_of_count_key. destruct (String.eqb k' k); simpl; lia.
Qed.

Lemma positive_count_key k acc :
  Forall (fun p => (0 < snd p)%nat) acc ->
  Forall (fun p => (0 < snd p)%nat) (count_key k acc).
Proof.
  induction 1 as [|[k' n] acc Hn Hacc IH]; simpl.
  - repeat constructor.
  - destruct (String.eqb k' k); constructor; simpl in *; try assumption; lia.
Qed.

Lemma positive_fold col acc :
  Forall (fun p => (0 < snd p)%nat) acc ->
  Forall (fun p => (0 < snd p)%nat) (fold_left count_step col acc).
Proof.
  revert acc. induction col as [|v col IH]; intros acc H; simpl; [exact H|].
  apply IH. destruct v; simpl; [now apply positive_count_key | exact H].
Qed.

Lemma NoDup_add_key k ks : NoDup ks -> NoDup (add_key k ks).
Proof.
  intros H. unfold add_key. destruct (existsb (String.eqb k) ks) eqn:E; [exact H|].
  apply NoDup_app. split; [exact H|]. split; [|repeat constructor; apply not_elem_of_nil].
  intros x Hx [->|[]]%list_elem_of_In. apply list_elem_of_In in Hx.
  apply existsb_eqb_In in Hx. congruence.
Qed.

Lemma NoDup_keys_fold col ks : NoDup ks -> NoDup (fold_left key_step col ks).
Proof.
  revert ks. induction col as [|v col IH]; intros ks H; simpl; [exact H|].
  apply IH. destruct v; simpl; [now apply NoDup_add_key | exact H].
Qed.

Lemma NoDup_first_keys col : NoDup (first_keys col).
Proof. apply NoDup_keys_fold. constructor. Qed.

Lemma count_of_absent k acc : ~ In k (map fst acc) -> count_of k acc = 0%nat.
Proof.
  unfold count_of. induction acc as [|[k' n] acc IH]; simpl; [reflexivity|].
  intros H. destruct (String.eqb k' k) eqn:E.
  - apply String.eqb_eq in E. tauto.
  - apply IH. tauto.
Qed.

Lemma count_of_In k n acc :
  NoDup (map fst acc) -> In (k, n) acc -> count_of k acc = n.
Proof.
  induction acc as [|[k' m] acc IH]; simpl; [tauto|].
  intros Hnd Hin. apply NoDup_cons_1_2 in Hnd as Hnd'. apply NoDup_cons_1_1 in Hnd.
  rewrite list_elem_of_In in Hnd.
  destruct Hin as [[= -> ->]|Hin].
  - unfold count_of. simpl. rewrite String.eqb_refl. simpl.
    fold (count_of k acc). rewrite count_of_absent by exact Hnd. lia.
  - assert (k' <> k) by (intros ->; apply Hnd, (in_map fst _ _ Hin)).
    unfold count_of. simpl. apply String.eqb_neq in H. rewrite H.
    now apply IH.
Qed.

Lemma count_of_positive k acc :
  (0 < count_of k acc)%nat -> exists n, In (k, n) acc.
Proof.
  unfold count_of. induction acc as [|[k' m] acc IH]; simpl; [lia|].
  destruct (String.eqb k' k) eqn:E.
  - apply String.eqb_eq in E. subst. eauto.
  - intros H. destruct (IH H) as [n Hn]. eauto.
Qed.

(** The table of [count_values]: one entry per value that occurs, holding
    the number of its occurrences. *)
Lemma count_values_In k n col :
  In (k, n) (count_values col) <-> n = occurrences k col /\ (0 < n)%nat.
Proof.
  pose proof (count_of_fold k col []) as Hc.
  change (fold_left count_step col []) with (count_values col) in Hc.
  change (count_of k []) with 0%nat in Hc. simpl in Hc.
  assert (Hnd : NoDup (map fst (count_values col)))
    by (rewrite keys_count_values; apply NoDup_first_keys).
  split.
  - intros Hin. split.
    + rewrite <- Hc. symmetry. now apply count_of_In.
    + assert (Hpos := positive_fold col [] (List.Forall_nil _)).
      change (fold_left count_step col []) with (count_values col) in Hpos.
      rewrite List.Forall_forall in Hpos. exact (Hpos _ Hin).
  - intros [-> Hpos]. rewrite <- Hc in Hpos |- *.
    destruct (count_of_positive _ _ Hpos) as [m Hm].
    now rewrite (count_of_In _ _ _ Hnd Hm).
Qed.

Lemma first_keys_snoc col v : first_keys (col ++ [v]) = key_step (first_keys col) v.
Proof. unfold first_keys. now rewrite fold_left_app. Qed.

Lemma first_keys_In k col : In k (first_keys col) <-> In (Some k) col.
Proof.
  induction col as [|v col IH] using rev_ind; [simpl; tauto|].
  rewrite first_keys_snoc, in_app_iff. simpl.
  destruct v as [k'|]; simpl.
  - unfold add_key. destruct (existsb (String.eqb k') (first_keys col)) eqn:E.
    + apply existsb_eqb_In in E. rewrite IH. split; [tauto|].
      intros [H|[[= ->]|[]]]; [exact H | now apply IH].
    + rewrite in_app_iff, IH. simpl. intuition congruence.
  - rewrite IH. intuition congruence.
Qed.

Lemma total_perm (l1 l2 : list (string * nat)) :
  Permutation l1 l2 -> total l1 = total l2.
Proof.
  induction 1 as [|[k n] l1 l2 _ IH|[k1 n1] [k2 n2] l|l1 l2 l3 _ IH1 _ IH2]; simpl; lia.
Qed.

(** The sort of the counts: every count is a number, [<=] is a total order. *)
Lemma sort_counts_perm ascending s : Permutation (sort_counts ascending s) s.
Proof. apply nargsort_perm. Qed.

Lemma sort_counts_sorted s :
  StronglySorted (fun a b => (snd b <= snd a)%nat) (sort_counts false s).
Proof.
  pose proof (nargsort_descending_sorted (fun _ : string * nat => false)
                (fun a b => (snd a <=? snd b)%nat)) as H.
  eapply sorted_impl; [|apply H].
  - intros a b Hab. now apply Nat.leb_le.
  - intros x y z Hxy%Nat.leb_le Hyz%Nat.leb_le. apply Nat.leb_le. lia.
  - intros x y _ _. rewrite !Nat.leb_le. lia.
  - apply List.Forall_forall. reflexivity.
Qed.

Lemma filter_all {A} (l : list A) : List.filter (fun _ => negb false) l = l.
Proof. induction l as [|a l IH]; [reflexivity|]. simpl. f_equal. exact IH. Qed.

Lemma filter_none {A} (l : list A) : List.filter (fun _ => false) l = [].
Proof. induction l as [|a l IH]; simpl; [reflexivity | exact IH]. Qed.

(** The same of any argsort that rearranges the counts in ascending order. *)
Lemma sort_counts_with_perm sort ascending s :
  sorts_by_count sort -> Permutation (sort_counts_with sort ascending s) s.
Proof. intros H. apply nargsort_with_perm. intros l. apply H. Qed.

Lemma sort_counts_with_sorted sort s :
  sorts_by_count sort ->
  StronglySorted (fun a b => (snd b <= snd a)%nat) (sort_counts_with sort false s).
Proof.
  intros H. unfold sort_counts_with, nargsort_with.
  rewrite filter_all, filter_none, app_nil_r. apply sorted_rev, H.
Qed.

(** The insertion sort is such an argsort. *)
Lemma insertion_sorts_by_count :
  sorts_by_count (argsort (fun a b => (snd a <=? snd b)%nat)).
Proof.
  intros s. split; [apply argsort_perm|].
  eapply sorted_impl;
    [|apply (argsort_sorted (fun _ : string * nat => false)
               (fun a b => (snd a <=? snd b)%nat))].
  - intros a b Hab. now apply Nat.leb_le.
  - intros x y z Hxy%Nat.leb_le Hyz%Nat.leb_le. apply Nat.leb_le. lia.
  - intros x y _ _. rewrite !Nat.leb_le. lia.
  - apply List.Forall_forall. reflexivity.
Qed.

End Counts.
(** ** The sort of a float column *)

Section SortValues.

Context {A : Type}.
Variable by_ : A -> float.

Lemma sort_values_perm ascending l : Permutation (sort_values by_ ascending l) l.
Proof. apply nargsort_perm. Qed.

Lemma sort_values_ascending l :
  Forall (fun r => F64.isna (by_ r) = false) l ->
  StronglySorted (fun a b => F64.leb (by_ a) (by_ b) = true) (sort_values by_ true l).
Proof.
  apply (nargsort_ascending_sorted (fun r => F64.isna (by_ r))
           (fun a b => F64.leb (by_ a) (by_ b))).
  - intros x y z. apply F64Facts.leb_trans.
  - intros x y. apply F64Facts.leb_total.
Qed.

Lemma sort_values_descending l :
  Forall (fun r => F64.isna (by_ r) = false) l ->
  StronglySorted (fun a b => F64.leb (by_ b) (by_ a) = true) (sort_values by_ false l).
Proof.
  apply (nargsort_descending_sorted (fun r => F64.isna (by_ r))
           (fun a b => F64.leb (by_ a) (by_ b))).
  - intros x y z. apply F64Facts.leb_trans.
  - intros x y. apply F64Facts.leb_total.
Qed.

End SortValues.

Lemma sorted_app_inv {A} (S : A -> A -> Prop) (l1 l2 : list A) :
  StronglySorted S (l1 ++ l2) -> forall a b, In a l1 -> In b l2 -> S a b.
Proof.
  induction l1 as [|x l1 IH]; simpl; [tauto|].
  intros H a b [->|Ha] Hb.
  - apply StronglySorted_inv in H as [_ H]. rewrite List.Forall_forall in H.
    apply H, in_or_app. now right.
  - apply StronglySorted_inv in H as [H _]. now apply (IH H).
Qed.

Lemma thousand : F64.of_Z 1000 = 1000%float.
Proof. reflexivity. Qed.

Lemma Mass_kg_notna (r : record) :
  F64.isna (Mass_g r) = false -> F64.isna (Mass_kg (add_Mass_kg r)) = false.
Proof.
  intros H. unfold add_Mass_kg. simpl.
  apply (F64Facts.div_notna _ _ false 8796093022208000 (-43)); [reflexivity | exact H].
Qed.

Lemma qualifies_filter (df : frame) (year_range : Z * Z) :
  List.filter (year_mask year_range)
    (List.filter (fun r => negb (F64.isna (Mass_g r)) && negb (number_isna (Year r))) df)
  = List.filter (qualifies year_range) df.
Proof. apply filter_filter. Qed.

Lemma filter_map_length {A B} (f : A -> B) (p : B -> bool) (l : list A) :
  length (List.filter p (map f l)) = length (List.filter (fun a => p (f a)) l).
Proof.
  induction l as [|a l IH]; simpl; [reflexivity|].
  destruct (p (f a)); simpl; now rewrite IH.
Qed.

(** The category totals, whatever the argsort: one entry per category that
    occurs, with the number of its records, in descending order of count, the
    counts adding up to the records that have a category. *)
Lemma type_counts_with_facts sort (df : frame) :
  sorts_by_count sort ->
  (forall t n, In (t, n) (type_counts_with sort df)
               <-> n = occurrences t (map Type_ df) /\ (0 < n)%nat)
  /\ NoDup (map fst (type_counts_with sort df))
  /\ StronglySorted (fun a b => (snd b <= snd a)%nat) (type_counts_with sort df)
  /\ total (type_counts_with sort df)
     = length (List.filter (fun r => present (Type_ r)) df).
Proof.
  intros Hsort. unfold type_counts_with, value_counts_with.
  set (cv := count_values (map Type_ df)).
  assert (Hp : Permutation (sort_counts_with sort false (sort_counts_with sort false cv)) cv)
    by (now rewrite !sort_counts_with_perm).
  split; [|split; [|split]].
  - intros t n. rewrite <- count_values_In. fold cv.
    split; apply Permutation_in; [exact Hp | now symmetry].
  - assert (Hk : Permutation
                   (map fst (sort_counts_with sort false (sort_counts_with sort false cv)))
                   (map fst cv)) by now apply Permutation_map.
    rewrite Hk. unfold cv. rewrite keys_count_values. apply NoDup_first_keys.
  - now apply sort_counts_with_sorted.
  - rewrite (total_perm _ _ Hp). unfold cv, count_values.
    change (fold_left _ (map Type_ df) []) with (fold_left count_step (map Type_ df) []).
    rewrite total_fold. simpl. apply filter_map_length.
Qed.

(** ** The Filter Engine *)

(** C1, as stated, fails: with no type selected the type filter is skipped
    ([if selected_types:]), and the rows within the mass and year ranges are
    returned.  On the sample data three rows come back. *)
Lemma empty_selection_returns_rows :
  ~ (forall (h : heap) (md : ref) (canon : frame) (sel : selection) (fd : ref) (h' : heap),
        h !! md = Some canon ->
        selected_types sel = [] ->
        apply_filters md sel h = (Ok fd, h') ->
        h' !! fd = Some []).
Proof.
  intros H.
  destruct (apply_filters 0%nat Sample.no_type [Sample.meteorite_data]) as [res h'] eqn:E.
  vm_compute in E. injection E as <- <-.
  specialize (H [Sample.meteorite_data] 0%nat Sample.meteorite_data Sample.no_type
                4%nat _ eq_refl eq_refl eq_refl).
  vm_compute in H. discriminate H.
Qed.

(** C1 (amended): when no type is selected, the Filter Engine returns exactly
    the records whose mass is present and within the mass interval and whose
    year is present and within the year interval, whatever their category. *)
Theorem empty_selection_skips_type_filter
  (h : heap) (md : ref) (canon : frame) (sel : selection) :
  h !! md = Some canon ->
  selected_types sel = [] ->
  exists fd h' result,
    apply_filters md sel h = (Ok fd, h')
    /\ h' !! fd = Some result
    /\ forall r, In r result
                 <-> In r canon /\ mass_within sel r
                     /\ year_within (selected_year_range sel) r.
Proof.
  intros Hmd Hsel.
  destruct (run_apply_filters h md canon sel Hmd) as [tmp Hrun].
  rewrite Hsel in Hrun. simpl in Hrun.
  eexists _, _, _. split; [exact Hrun|]. split; [apply lookup_new|].
  intros r. rewrite filter_In, passes_spec. intuition discriminate.
Qed.

Lemma empty_selection_skips_type_filter_witness :
  exists fd h' result,
    apply_filters 0%nat Sample.no_type [Sample.meteorite_data] = (Ok fd, h')
    /\ h' !! fd = Some result
    /\ forall r, In r result
                 <-> In r Sample.meteorite_data /\ mass_within Sample.no_type r
                     /\ year_within (selected_year_range Sample.no_type) r.
Proof.
  apply (empty_selection_skips_type_filter [Sample.meteorite_data] 0%nat
           Sample.meteorite_data Sample.no_type); reflexivity.
Defined.

(** C2: with some type selected, the Filter Engine returns exactly the records
    whose category is selected, whose mass is present and within the mass
    interval, and whose year is present and within the year interval; a record
    with a missing mass or a missing year is not returned. *)
Theorem apply_filters_exact
  (h : heap) (md : ref) (canon : frame) (sel : selection) :
  h !! md = Some canon ->
  selected_types sel <> [] ->
  exists fd h' result,
    apply_filters md sel h = (Ok fd, h')
    /\ h' !! fd = Some result
    /\ (forall r, In r result
                  <-> In r canon /\ category_selected sel r /\ mass_within sel r
                      /\ year_within (selected_year_range sel) r)
    /\ (forall r, In r result ->
                  F64.isna (Mass_g r) = false /\ number_isna (Year r) = false).
Proof.
  intros Hmd Hsel.
  destruct (run_apply_filters h md canon sel Hmd) as [tmp Hrun].
  destruct (selected_types sel) as [|t ts] eqn:Et; [congruence|]. simpl in Hrun.
  eexists _, _, _. split; [exact Hrun|]. split; [apply lookup_new|]. split.
  - intros r. rewrite filter_In, passes_spec. intuition.
  - intros r [_ Hp]%filter_In. exact (passes_present _ _ _ Hp).
Qed.

Lemma apply_filters_exact_witness :
  exists fd h' result,
    apply_filters 0%nat Sample.year_2000 [Sample.meteorite_data] = (Ok fd, h')
    /\ h' !! fd = Some result
    /\ (forall r, In r result
                  <-> In r Sample.meteorite_data /\ category_selected Sample.year_2000 r
                      /\ mass_within Sample.year_2000 r
                      /\ year_within (selected_year_range Sample.year_2000) r)
    /\ (forall r, In r result ->
                  F64.isna (Mass_g r) = false /\ number_isna (Year r) = false).
Proof.
  apply (apply_filters_exact [Sample.meteorite_data] 0%nat
           Sample.meteorite_data Sample.year_2000); [reflexivity | discriminate].
Defined.

(** C7: the rows returned by the Filter Engine depend on the rows of the
    Dataset and on the selection only: from any two heaps that hold the same
    Dataset, and again when run a second time after itself, it returns the
    same rows, which are the matching rows of the Dataset in the Dataset's
    order. *)
Theorem apply_filters_pure
  (h1 h2 : heap) (md1 md2 : ref) (canon : frame) (sel : selection) :
  h1 !! md1 = Some canon ->
  h2 !! md2 = Some canon ->
  exists fd1 h1' fd2 h2' fd3 h3 rows,
    apply_filters md1 sel h1 = (Ok fd1, h1')
    /\ apply_filters md2 sel h2 = (Ok fd2, h2')
    /\ apply_filters md1 sel h1' = (Ok fd3, h3)
    /\ h1' !! fd1 = Some rows /\ h2' !! fd2 = Some rows /\ h3 !! fd3 = Some rows
    /\ rows = List.filter (passes (negb (is_empty (selected_types sel))) sel) canon
    /\ sublist rows canon.
Proof.
  intros H1 H2.
  destruct (run_apply_filters h1 md1 canon sel H1) as [t1 R1].
  destruct (run_apply_filters h2 md2 canon sel H2) as [t2 R2].
  assert (H1' : ((h1 ++ t1)
                 ++ [List.filter (passes (negb (is_empty (selected_types sel))) sel) canon])
                !! md1 = Some canon) by now apply lookup_old.
  destruct (run_apply_filters _ md1 canon sel H1') as [t3 R3].
  eexists _, _, _, _, _, _, _.
  split; [exact R1|]. split; [exact R2|]. split; [exact R3|].
  split; [apply lookup_new|]. split; [apply lookup_new|]. split; [apply lookup_new|].
  split; [reflexivity | apply filter_is_sublist].
Qed.

Lemma apply_filters_pure_witness :
  exists fd1 h1' fd2 h2' fd3 h3 rows,
    apply_filters 0%nat Sample.everything [Sample.meteorite_data] = (Ok fd1, h1')
    /\ apply_filters 1%nat Sample.everything [[]; Sample.meteorite_data] = (Ok fd2, h2')
    /\ apply_filters 0%nat Sample.everything h1' = (Ok fd3, h3)
    /\ h1' !! fd1 = Some rows /\ h2' !! fd2 = Some rows /\ h3 !! fd3 = Some rows
    /\ rows = List.filter
                (passes (negb (is_empty (selected_types Sample.everything))) Sample.everything)
                Sample.meteorite_data
    /\ sublist rows Sample.meteorite_data.
Proof.
  apply (apply_filters_pure [Sample.meteorite_data] [[]; Sample.meteorite_data]
           0%nat 1%nat Sample.meteorite_data Sample.everything); reflexivity.
Defined.

(** C8: filtering, the display step included, leaves every frame that existed
    before it as it was, [meteorite_data] among them, whether the step
    completes or raises; the frame it returns is one that did not exist
    before. *)
Theorem filtering_keeps_canonical
  (h : heap) (md : ref) (canon : frame) (sel : selection) :
  h !! md = Some canon ->
  exists res h',
    filter_for_display md sel h = (res, h')
    /\ h' !! md = Some canon
    /\ (forall (r : ref) (df : frame), h !! r = Some df -> h' !! r = Some df)
    /\ (forall fd, res = Ok fd ->
                   h !! fd = None /\ fd <> md /\ exists rows, h' !! fd = Some rows).
Proof. apply run_filter_for_display. Qed.

Lemma filtering_keeps_canonical_witness :
  exists res h',
    filter_for_display 0%nat Sample.year_2000 [Sample.meteorite_data] = (res, h')
    /\ h' !! 0%nat = Some Sample.meteorite_data
    /\ (forall (r : ref) (df : frame),
          [Sample.meteorite_data] !! r = Some df -> h' !! r = Some df)
    /\ (forall fd, res = Ok fd ->
                   [Sample.meteorite_data] !! fd = None /\ fd <> 0%nat
                   /\ exists rows, h' !! fd = Some rows).
Proof.
  apply (filtering_keeps_canonical [Sample.meteorite_data] 0%nat
           Sample.meteorite_data Sample.year_2000); reflexivity.
Defined.

(** ** The Loader/Cleaner and the Classifier *)

(** C5: the loader drops no row and no year makes it raise.  Whenever the
    string accessor accepts the classification column the loader returns a
    Dataset with one row per input line, in order, together with the number of
    lines, and a year whose text is not a number is the missing value in it.
    The loader raises in one case only, whatever the years: AttributeError
    from [.str] when the classification column has rows and no text. *)
Theorem read_meteorite_date_keeps_rows
  (parse_number : string -> option float) (csv : list Raw.record) :
  (str_accepts (map Raw.recclass csv) = false ->
   read_meteorite_date parse_number csv = Raise AttributeError)
  /\ (str_accepts (map Raw.recclass csv) = true ->
      exists df,
        read_meteorite_date parse_number csv = Ok (df, length csv)
        /\ length df = length csv
        /\ forall (i : nat) (r : Raw.record),
             csv !! i = Some r ->
             exists c,
               df !! i = Some c
               /\ c_id c = Raw.id r
               /\ forall s, Raw.year r = Str s -> parse_number s = None ->
                            c_Year c = Float64 PrimFloat.nan
                            /\ number_isna (c_Year c) = true).
Proof.
  rewrite run_read_meteorite_date. split; intros ->; [reflexivity|].
  exists (map (cleaned_row parse_number) csv).
  split; [reflexivity|]. split; [apply length_map|].
  intros i r Hi. exists (cleaned_row parse_number r).
  split; [now rewrite lookup_map, Hi|]. split; [reflexivity|].
  intros s Hs Hp. unfold cleaned_row, renamed, coerced. simpl.
  rewrite Hs, Hp. split; reflexivity.
Qed.

(** C6: in the Dataset built from what the loader returns, every
    classification code is free of digits and has no white space at either
    end. *)
Theorem classification_is_clean
  (parse_number : string -> option float) (csv : list Raw.record)
  (df : list cleaned) (n : nat) :
  read_meteorite_date parse_number csv = Ok (df, n) ->
  Forall (fun r : record =>
            forall code, Classification r = Some code ->
              Text.no_digit code
              /\ Text.no_leading_space code
              /\ Text.no_trailing_space code)
         (classify df).
Proof.
  intros (_ & -> & _)%read_meteorite_date_Ok.
  apply List.Forall_forall. intros r Hr code Hcode.
  unfold classify in Hr. rewrite map_map in Hr.
  apply in_map_iff in Hr as (raw & <- & _). simpl in Hcode.
  exact (clean_classification_clean _ _ Hcode).
Qed.

Lemma classification_is_clean_witness :
  Forall (fun r : record =>
            forall code, Classification r = Some code ->
              Text.no_digit code
              /\ Text.no_leading_space code
              /\ Text.no_trailing_space code)
         (classify Sample.cleaned_data).
Proof.
  apply (classification_is_clean Sample.parse_number Sample.csv Sample.cleaned_data 5).
  vm_compute. reflexivity.
Defined.

(** C9: the classifier is a total function that keeps every row; a record
    whose cleaned code is not a key of the table gets no category, and two
    records with the same cleaned code get the same category. *)
Theorem unmapped_code_is_absent (df1 df2 : list cleaned) :
  length (classify df1) = length df1
  /\ Forall (fun r : record =>
               forall code, Classification r = Some code ->
                 meteorite_class !! code = None -> Type_ r = None)
            (classify df1)
  /\ forall r1 r2 : record,
       In r1 (classify df1) -> In r2 (classify df2) ->
       Classification r1 = Classification r2 -> Type_ r1 = Type_ r2.
Proof.
  split; [apply length_map|]. split.
  - apply List.Forall_forall. intros r Hr code Hcode Hnone.
    rewrite (classify_Type _ _ Hr), Hcode. exact Hnone.
  - intros r1 r2 H1 H2 E.
    now rewrite (classify_Type _ _ H1), (classify_Type _ _ H2), E.
Qed.

(** ** The charts *)

(** C3: the Top-N-by-mass view holds min(10, k) records, k being the number
    of records with a mass, a year, and the year within the interval; each is
    such a record with its mass in kilograms, the mass in grams divided by
    1000; the view is in ascending order of that mass; no record left out is
    heavier than a record of the view; when at most 10 records qualify the
    view holds them all. *)
Theorem top_mass_view (df : frame) (year_range : Z * Z) :
  length (chart_top_mass_by_year df year_range)
  = Nat.min 10 (length (List.filter (qualifies year_range) df))
  /\ (forall e, In e (chart_top_mass_by_year df year_range) ->
        In (row e) df
        /\ qualifies year_range (row e) = true
        /\ Mass_kg e = PrimFloat.div (Mass_g (row e)) 1000%float)
  /\ StronglySorted (fun a b => F64.leb (Mass_kg a) (Mass_kg b) = true)
       (chart_top_mass_by_year df year_range)
  /\ (exists rest,
        Permutation (List.filter (qualifies year_range) df)
          (map row (chart_top_mass_by_year df year_range) ++ rest)
        /\ forall e r, In e (chart_top_mass_by_year df year_range) -> In r rest ->
             F64.leb (Mass_g r) (Mass_g (row e)) = true)
  /\ ((length (List.filter (qualifies year_range) df) <= 10)%nat ->
      Permutation (map row (chart_top_mass_by_year df year_range))
        (List.filter (qualifies year_range) df)).
Proof.
  unfold chart_top_mass_by_year. rewrite qualifies_filter.
  set (Q := List.filter (qualifies year_range) df).
  set (S := sort_values Mass_g false Q).
  set (K := map add_Mass_kg (firstn 10 S)).
  assert (HQ : Forall (fun r => F64.isna (Mass_g r) = false) Q).
  { apply List.Forall_forall. intros r [_ Hr]%filter_In. unfold qualifies in Hr.
    rewrite !andb_true_iff, !negb_true_iff in Hr. tauto. }
  assert (HSQ : Permutation S Q) by apply sort_values_perm.
  assert (HK : Forall (fun e => F64.isna (Mass_kg e) = false) K).
  { apply List.Forall_forall. intros e (r & <- & Hr)%in_map_iff.
    apply Mass_kg_notna. rewrite List.Forall_forall in HQ. apply HQ.
    apply (Permutation_in _ HSQ). rewrite <- (firstn_skipn 10 S).
    apply in_or_app. now left. }
  assert (HVK : Permutation (sort_values Mass_kg true K) K) by apply sort_values_perm.
  assert (Hrow : map row K = firstn 10 S).
  { unfold K. rewrite map_map. simpl. apply map_id. }
  assert (Hsplit : Permutation Q (map row (sort_values Mass_kg true K) ++ skipn 10 S)).
  { rewrite HVK, Hrow, firstn_skipn. now symmetry. }
  split; [|split; [|split; [|split]]].
  - rewrite (Permutation_length HVK). unfold K.
    rewrite length_map, length_firstn, (Permutation_length HSQ). reflexivity.
  - intros e He. apply (Permutation_in _ HVK) in He.
    apply in_map_iff in He as (r & <- & Hr). simpl.
    assert (Hin : In r Q).
    { apply (Permutation_in _ HSQ). rewrite <- (firstn_skipn 10 S).
      apply in_or_app. now left. }
    apply filter_In in Hin as [Hdf Hq]. rewrite thousand. now repeat split.
  - now apply sort_values_ascending.
  - exists (skipn 10 S). split; [exact Hsplit|].
    intros e r He Hr. apply (Permutation_in _ HVK) in He.
    apply (in_map row) in He. rewrite Hrow in He.
    assert (Hs : StronglySorted (fun a b => F64.leb (Mass_g b) (Mass_g a) = true)
                   (firstn 10 S ++ skipn 10 S)).
    { rewrite firstn_skipn. now apply sort_values_descending. }
    exact (sorted_app_inv _ _ _ Hs _ _ He Hr).
  - intros Hle. rewrite HVK, Hrow, firstn_all2; [exact HSQ|].
    now rewrite (Permutation_length HSQ).
Qed.




(** C10, as stated, fails: the third chart is drawn only when the filtered
    result is not empty.  On the sample data, for the year 2000 and the whole
    mass range, the chart is drawn when the ordinary chondrites are selected
    and not when the carbonaceous chondrites are. *)
Lemma top_mass_depends_on_filters :
  ~ (forall (h : heap) (md : ref) (canon : frame) (sel1 sel2 : selection)
            (p1 p2 : page) (h1 h2 : heap),
        h !! md = Some canon ->
        selected_year_range sel1 = selected_year_range sel2 ->
        main md sel1 h = (Ok p1, h1) ->
        main md sel2 h = (Ok p2, h2) ->
        chart3 p1 = chart3 p2).
Proof.
  intros H.
  destruct (main 0%nat Sample.ordinary_2000 [Sample.meteorite_data])
    as [[p1|] h1] eqn:E1; [|vm_compute in E1; discriminate E1].
  destruct (main 0%nat Sample.carbonaceous_2000 [Sample.meteorite_data])
    as [[p2|] h2] eqn:E2; [|vm_compute in E2; discriminate E2].
  specialize (H [Sample.meteorite_data] 0%nat Sample.meteorite_data
                Sample.ordinary_2000 Sample.carbonaceous_2000 p1 p2 h1 h2
                eq_refl eq_refl E1 E2).
  vm_compute in E1, E2. injection E1 as <- _. injection E2 as <- _.
  discriminate H.
Qed.

(** C10 (amended): in a pass of [main] the Top-N-by-mass view is drawn exactly
    when some record is shown, and it is then the view of the canonical
    Dataset for the year interval; two passes with the same year interval
    that both draw it draw the same view, whatever the selected types and
    the mass interval. *)
Theorem top_mass_from_canonical
  (h g : heap) (md1 md2 : ref) (canon : frame) (sel1 sel2 : selection)
  (p1 p2 : page) (h1 h2 : heap) :
  h !! md1 = Some canon ->
  g !! md2 = Some canon ->
  selected_year_range sel1 = selected_year_range sel2 ->
  main md1 sel1 h = (Ok p1, h1) ->
  main md2 sel2 g = (Ok p2, h2) ->
  chart3 p1 = (if (filtered_records p1 =? 0)%nat then None
               else Some (chart_top_mass_by_year canon (selected_year_range sel1)))
  /\ chart3 p2 = (if (filtered_records p2 =? 0)%nat then None
                  else Some (chart_top_mass_by_year canon (selected_year_range sel1)))
  /\ forall v1 v2, chart3 p1 = Some v1 -> chart3 p2 = Some v2 -> v1 = v2.
Proof.
  intros Hh Hg Hy R1 R2.
  destruct (run_main _ _ _ _ _ _ Hh R1) as [C1 _].
  destruct (run_main _ _ _ _ _ _ Hg R2) as [C2 _].
  rewrite <- Hy in C2. split; [exact C1|]. split; [exact C2|].
  intros v1 v2 E1 E2. rewrite C1 in E1. rewrite C2 in E2.
  destruct (filtered_records p1 =? 0)%nat; [discriminate|].
  destruct (filtered_records p2 =? 0)%nat; [discriminate|].
  congruence.
Qed.

Lemma top_mass_from_canonical_witness :
  chart3 (Sample.shown_page Sample.everything)
  = (if (filtered_records (Sample.shown_page Sample.everything) =? 0)%nat then None
     else Some (chart_top_mass_by_year Sample.meteorite_data
                  (selected_year_range Sample.everything)))
  /\ chart3 (Sample.shown_page Sample.no_type)
     = (if (filtered_records (Sample.shown_page Sample.no_type) =? 0)%nat then None
        else Some (chart_top_mass_by_year Sample.meteorite_data
                     (selected_year_range Sample.everything)))
  /\ forall v1 v2,
       chart3 (Sample.shown_page Sample.everything) = Some v1 ->
       chart3 (Sample.shown_page Sample.no_type) = Some v2 -> v1 = v2.
Proof.
  apply (top_mass_from_canonical [Sample.meteorite_data] [Sample.meteorite_data]
           0%nat 0%nat Sample.meteorite_data Sample.everything Sample.no_type
           (Sample.shown_page Sample.everything) (Sample.shown_page Sample.no_type)
           (snd (Sample.pass Sample.everything)) (snd (Sample.pass Sample.no_type)));
    reflexivity.
Defined.

(** ** The sidebar: the offered types and the mass bounds *)

Section StringOrder.

Lemma ascii_compare_trans (a b c : ascii) :
  Ascii.compare a b <> Gt -> Ascii.compare b c <> Gt -> Ascii.compare a c <> Gt.
Proof.
  unfold Ascii.compare. rewrite !N.compare_gt_iff. lia.
Qed.

Lemma ascii_compare_eq (a b : ascii) : Ascii.compare a b = Eq <-> a = b.
Proof.
  split; [apply Ascii.compare_eq_iff|]. intros ->. unfold Ascii.compare.
  apply N.compare_refl.
Qed.

Lemma string_compare_trans (s1 s2 s3 : string) :
  String.compare s1 s2 <> Gt -> String.compare s2 s3 <> Gt ->
  String.compare s1 s3 <> Gt.
Proof.
  revert s2 s3. induction s1 as [|a s1 IH]; intros [|b s2] [|c s3]; simpl;
    try congruence.
  destruct (Ascii.compare a b) eqn:Eab; try congruence;
    destruct (Ascii.compare b c) eqn:Ebc; try congruence; intros H1 H2.
  - apply ascii_compare_eq in Eab, Ebc. subst.
    rewrite (proj2 (ascii_compare_eq c c) eq_refl). now apply (IH s2).
  - apply ascii_compare_eq in Eab. subst. now rewrite Ebc.
  - apply ascii_compare_eq in Ebc. subst. now rewrite Eab.
  - destruct (Ascii.compare a c) eqn:Eac; try congruence.
    + apply ascii_compare_eq in Eac. subst.
      rewrite Ascii.compare_antisym, Ebc in Eab. discriminate.
    + exfalso. apply (ascii_compare_trans a b c); congruence.
Qed.

Lemma string_leb_trans (s1 s2 s3 : string) :
  String.leb s1 s2 = true -> String.leb s2 s3 = true -> String.leb s1 s3 = true.
Proof.
  unfold String.leb. intros H1 H2.
  pose proof (string_compare_trans s1 s2 s3) as H.
  destruct (String.compare s1 s2); try discriminate;
    destruct (String.compare s2 s3); try discriminate;
    destruct (String.compare s1 s3); try reflexivity;
    exfalso; apply H; congruence.
Qed.

Lemma sorted_is_sorted (l : list string) :
  StronglySorted (fun a b => String.leb a b = true) (sorted l).
Proof.
  apply (argsort_sorted (fun _ => false) String.leb).
  - exact string_leb_trans.
  - intros x y _ _. apply String.leb_total.
  - apply List.Forall_forall. reflexivity.
Qed.

End StringOrder.

Section Unique.

Lemma existsb_option_eqb (k : string) (seen : list (option string)) :
  existsb (option_string_eqb (Some k)) seen = existsb (String.eqb k) (notna_values seen).
Proof.
  induction seen as [|[t|] seen IH]; simpl; [reflexivity| |exact IH].
  now rewrite IH.
Qed.

Lemma notna_values_app (l1 l2 : list (option string)) :
  notna_values (l1 ++ l2) = notna_values l1 ++ notna_values l2.
Proof. apply flat_map_app. Qed.

Lemma notna_values_unique_fold (col seen : list (option string)) :
  notna_values
    (fold_left
       (fun seen v => if existsb (option_string_eqb v) seen then seen else seen ++ [v])
       col seen)
  = fold_left key_step col (notna_values seen).
Proof.
  revert seen. induction col as [|v col IH]; intros seen; simpl; [reflexivity|].
  rewrite IH. f_equal. destruct v as [k|]; simpl.
  - unfold add_key. rewrite <- existsb_option_eqb.
    destruct (existsb (option_string_eqb (Some k)) seen); [reflexivity|].
    rewrite notna_values_app. simpl. reflexivity.
  - destruct (existsb (option_string_eqb None) seen); [reflexivity|].
    rewrite notna_values_app. simpl. apply app_nil_r.
Qed.

(** The values offered are the keys of the count table, in the same order. *)
Lemma notna_values_unique (col : list (option string)) :
  notna_values (unique col) = first_keys col.
Proof. apply (notna_values_unique_fold col []). Qed.

Lemma available_types_perm (df : frame) :
  Permutation (available_types df) (first_keys (map Type_ df)).
Proof.
  unfold available_types, sorted. rewrite argsort_perm. now rewrite notna_values_unique.
Qed.

Lemma available_types_In (df : frame) (t : string) :
  In t (available_types df) <-> exists r, In r df /\ Type_ r = Some t.
Proof.
  assert (H : In t (available_types df) <-> In t (first_keys (map Type_ df))).
  { split; apply Permutation_in; [|symmetry]; apply available_types_perm. }
  rewrite H, first_keys_In, in_map_iff. split; intros (r & H1 & H2); eauto.
Qed.

End Unique.

Section MassBounds.

Import F64Facts.

Lemma fmin_spec (a x : float) :
  F64.isna a = false -> F64.isna x = false ->
  F64.isna (fmin a x) = false
  /\ F64.leb (fmin a x) a = true /\ F64.leb (fmin a x) x = true
  /\ (fmin a x = a \/ fmin a x = x).
Proof.
  intros Ha Hx. unfold fmin. rewrite Ha. simpl.
  destruct (F64.leb a x) eqn:E.
  - repeat split; auto using leb_refl.
  - destruct (leb_total a x Ha Hx) as [H|H]; [congruence|].
    repeat split; auto using leb_refl.
Qed.

Lemma fmax_spec (a x : float) :
  F64.isna a = false -> F64.isna x = false ->
  F64.isna (fmax a x) = false
  /\ F64.leb a (fmax a x) = true /\ F64.leb x (fmax a x) = true
  /\ (fmax a x = a \/ fmax a x = x).
Proof.
  intros Ha Hx. unfold fmax. change (F64.geb a x) with (F64.leb x a). rewrite Ha. simpl.
  destruct (F64.leb x a) eqn:E.
  - repeat split; auto using leb_refl.
  - destruct (leb_total a x Ha Hx) as [H|H]; [|congruence].
    repeat split; auto using leb_refl.
Qed.

Lemma fold_fmin (l : list float) (a : float) :
  F64.isna a = false -> Forall (fun x => F64.isna x = false) l ->
  F64.isna (fold_left fmin l a) = false
  /\ Forall (fun x => F64.leb (fold_left fmin l a) x = true) (a :: l)
  /\ In (fold_left fmin l a) (a :: l).
Proof.
  intros Ha Hl. revert a Ha. induction Hl as [|x l Hx Hl IH]; intros a Ha; simpl.
  - split; [exact Ha|]. split; [|now left]. repeat constructor. now apply leb_refl.
  - destruct (fmin_spec a x Ha Hx) as (Hn & H1 & H2 & Hor).
    destruct (IH (fmin a x) Hn) as (Hm & Hall & Hin).
    inversion Hall as [|? ? Hhd Htl]; subst.
    split; [exact Hm|]. split.
    + constructor; [exact (leb_trans _ _ _ Hhd H1)|].
      constructor; [exact (leb_trans _ _ _ Hhd H2) | exact Htl].
    + simpl in Hin. destruct Hin as [Hin|Hin]; [|now right; right].
      rewrite <- Hin. destruct Hor as [->| ->]; [now left | now right; left].
Qed.

Lemma fold_fmax (l : list float) (a : float) :
  F64.isna a = false -> Forall (fun x => F64.isna x = false) l ->
  F64.isna (fold_left fmax l a) = false
  /\ Forall (fun x => F64.leb x (fold_left fmax l a) = true) (a :: l)
  /\ In (fold_left fmax l a) (a :: l).
Proof.
  intros Ha Hl. revert a Ha. induction Hl as [|x l Hx Hl IH]; intros a Ha; simpl.
  - split; [exact Ha|]. split; [|now left]. repeat constructor. now apply leb_refl.
  - destruct (fmax_spec a x Ha Hx) as (Hn & H1 & H2 & Hor).
    destruct (IH (fmax a x) Hn) as (Hm & Hall & Hin).
    inversion Hall as [|? ? Hhd Htl]; subst.
    split; [exact Hm|]. split.
    + constructor; [exact (leb_trans _ _ _ H1 Hhd)|].
      constructor; [exact (leb_trans _ _ _ H2 Hhd) | exact Htl].
    + simpl in Hin. destruct Hin as [Hin|Hin]; [|now right; right].
      rewrite <- Hin. destruct Hor as [->| ->]; [now left | now right; left].
Qed.

Lemma dropna_notna (col : list float) : Forall (fun x => F64.isna x = false) (dropna col).
Proof.
  apply List.Forall_forall. intros x [_ H]%filter_In. now apply negb_true_iff.
Qed.

Lemma series_min_spec (col : list float) :
  Forall (fun x => F64.isna x = false) col ->
  Forall (fun x => F64.leb (series_min col) x = true) col
  /\ (col <> [] -> In (series_min col) col).
Proof.
  intros H. destruct col as [|a l]; simpl; [split; [constructor | congruence]|].
  inversion H as [|? ? Ha Hl]; subst.
  destruct (fold_fmin l a Ha Hl) as (_ & Hall & Hin). split; [exact Hall | now intros _].
Qed.

Lemma series_max_spec (col : list float) :
  Forall (fun x => F64.isna x = false) col ->
  Forall (fun x => F64.leb x (series_max col) = true) col
  /\ (col <> [] -> In (series_max col) col).
Proof.
  intros H. destruct col as [|a l]; simpl; [split; [constructor | congruence]|].
  inversion H as [|? ? Ha Hl]; subst.
  destruct (fold_fmax l a Ha Hl) as (_ & Hall & Hin). split; [exact Hall | now intros _].
Qed.

(** Within the slider's bounds lies every mass that is present, and no
    missing one. *)
Lemma mass_slider_mask (df : frame) (r : record) :
  In r df -> mass_mask (mass_slider df) r = negb (F64.isna (Mass_g r)).
Proof.
  intros Hr. unfold mass_mask, mass_slider. cbn [fst snd].
  change (F64.geb (Mass_g r) (series_min (dropna (map Mass_g df))))
    with (F64.leb (series_min (dropna (map Mass_g df))) (Mass_g r)).
  destruct (F64.isna (Mass_g r)) eqn:E; simpl.
  - apply andb_false_iff. right.
    destruct (F64.leb (Mass_g r) _) eqn:E'; [|reflexivity].
    apply leb_notna_l in E'. congruence.
  - assert (Hin : In (Mass_g r) (dropna (map Mass_g df))).
    { apply filter_In. split; [now apply in_map | now rewrite E]. }
    pose proof (dropna_notna (map Mass_g df)) as Hn.
    destruct (series_min_spec _ Hn) as [Hmin _].
    destruct (series_max_spec _ Hn) as [Hmax _].
    rewrite List.Forall_forall in Hmin, Hmax.
    now rewrite (Hmin _ Hin), (Hmax _ Hin).
Qed.

End MassBounds.

(** ** Properties of the sidebar *)

(** The types offered by the multiselect are the categories that occur in the
    Dataset, each once, in ascending order; selecting them all keeps exactly
    the rows that have a category. *)
Theorem available_types_offer (df : frame) :
  StronglySorted (fun a b => String.leb a b = true) (available_types df)
  /\ NoDup (available_types df)
  /\ (forall t, In t (available_types df) <-> exists r, In r df /\ Type_ r = Some t)
  /\ Forall (fun r => isin (available_types df) (Type_ r) = present (Type_ r)) df.
Proof.
  split; [apply sorted_is_sorted|]. split; [|split].
  - rewrite available_types_perm. apply NoDup_first_keys.
  - apply available_types_In.
  - apply List.Forall_forall. intros r Hr. destruct (Type_ r) as [t|] eqn:Et; simpl.
    + apply existsb_eqb_In, available_types_In. eauto.
    + reflexivity.
Qed.

(** The bounds of the mass slider are masses of the Dataset when some mass is
    present and NaN when none is; every present mass lies within them, so the
    mass filter at the slider's bounds keeps exactly the rows with a mass. *)
Theorem mass_slider_bounds (df : frame) :
  Forall (fun r => mass_mask (mass_slider df) r = negb (F64.isna (Mass_g r))) df
  /\ ((exists r, In r df /\ F64.isna (Mass_g r) = false) ->
      exists r1 r2,
        In r1 df /\ In r2 df
        /\ Mass_g r1 = fst (mass_slider df) /\ Mass_g r2 = snd (mass_slider df))
  /\ ((forall r, In r df -> F64.isna (Mass_g r) = true) ->
      F64.isna (fst (mass_slider df)) = true /\ F64.isna (snd (mass_slider df)) = true).
Proof.
  split; [|split].
  - apply List.Forall_forall. intros r Hr. now apply mass_slider_mask.
  - intros (r & Hr & Hm).
    pose proof (dropna_notna (map Mass_g df)) as Hn.
    assert (Hne : dropna (map Mass_g df) <> []).
    { intros E. assert (Hin : In (Mass_g r) (dropna (map Mass_g df))).
      { apply filter_In. split; [now apply in_map | now rewrite Hm]. }
      rewrite E in Hin. contradiction. }
    destruct (series_min_spec _ Hn) as [_ Hmin].
    destruct (series_max_spec _ Hn) as [_ Hmax].
    apply Hmin in Hne as H1. apply Hmax in Hne as H2.
    apply filter_In in H1 as [(r1 & E1 & Hr1)%in_map_iff _].
    apply filter_In in H2 as [(r2 & E2 & Hr2)%in_map_iff _].
    exists r1, r2. now repeat split.
  - intros Hall. unfold mass_slider.
    assert (E : dropna (map Mass_g df) = []).
    { unfold dropna. induction df as [|r df IH]; simpl; [reflexivity|].
      rewrite (Hall r (or_introl eq_refl)). simpl. apply IH.
      intros r' Hr'. apply Hall. now right. }
    rewrite E. now split.
Qed.

(** When every present mass of the Dataset is the same, both bounds of the
    mass slider are that mass. *)
Lemma mass_slider_equal (df : frame) (m : float) :
  (exists r, In r df /\ F64.isna (Mass_g r) = false) ->
  (forall r, In r df -> F64.isna (Mass_g r) = false -> Mass_g r = m) ->
  mass_slider df = (m, m).
Proof.
  intros (r & Hr & Hm) Hall.
  pose proof (dropna_notna (map Mass_g df)) as Hn.
  assert (Hne : dropna (map Mass_g df) <> []).
  { intros E. assert (Hin : In (Mass_g r) (dropna (map Mass_g df))).
    { apply filter_In. split; [now apply in_map | now rewrite Hm]. }
    rewrite E in Hin. contradiction. }
  assert (Hin : forall x, In x (dropna (map Mass_g df)) -> x = m).
  { intros x [(r' & <- & Hr')%in_map_iff Hx%negb_true_iff]%filter_In. now apply Hall. }
  destruct (series_min_spec _ Hn) as [_ Hmin].
  destruct (series_max_spec _ Hn) as [_ Hmax].
  unfold mass_slider. now rewrite (Hin _ (Hmin Hne)), (Hin _ (Hmax Hne)).
Qed.

(** The sidebar on a first visit, every widget at its default.  When the
    slider refuses the bounds of the mass range the pass raises before any
    filtering: so it does, equal bounds being refused, for a Dataset whose
    present masses are all the same.  When the slider accepts them the
    filters return the rows that have a mass, a year between 1399 and 2025,
    and a category; when no row of the Dataset has a category nothing is
    offered, nothing is selected, and the rows without category are
    returned. *)
Theorem default_selection_rows
  (slider_accepts : float -> float -> bool) (h : heap) (md : ref) (canon : frame) :
  h !! md = Some canon ->
  (slider_accepts (fst (mass_slider canon)) (snd (mass_slider canon)) = false ->
   default_selection slider_accepts canon = Raise StreamlitAPIException)
  /\ ((forall x, slider_accepts x x = false) ->
      forall m,
        (exists r, In r canon /\ F64.isna (Mass_g r) = false) ->
        (forall r, In r canon -> F64.isna (Mass_g r) = false -> Mass_g r = m) ->
        default_selection slider_accepts canon = Raise StreamlitAPIException)
  /\ (slider_accepts (fst (mass_slider canon)) (snd (mass_slider canon)) = true ->
      exists sel fd h' result,
        default_selection slider_accepts canon = Ok sel
        /\ apply_filters md sel h = (Ok fd, h')
        /\ h' !! fd = Some result
        /\ sublist result canon
        /\ forall r, In r result
                     <-> In r canon
                         /\ (Type_ r <> None \/ forall r', In r' canon -> Type_ r' = None)
                         /\ F64.isna (Mass_g r) = false
                         /\ year_within (slider_min_year, slider_max_year) r).
Proof.
  intros Hmd. unfold default_selection, st_slider. split; [|split].
  - intros ->. reflexivity.
  - intros Hequal m Hsome Hall.
    rewrite (mass_slider_equal canon m Hsome Hall). simpl. now rewrite Hequal.
  - intros ->. simpl.
    set (sel := {| selected_types := available_types canon;
                   selected_year_range := (slider_min_year, slider_max_year);
                   selected_mass_range :=
                     (fst (mass_slider canon), snd (mass_slider canon)) |}).
    destruct (run_apply_filters h md canon sel Hmd) as [tmp Hrun].
    eexists _, _, _, _. split; [reflexivity|]. split; [exact Hrun|].
    split; [apply lookup_new|]. split; [apply filter_is_sublist|].
    assert (Hmask : forall r, In r canon ->
               mass_mask (fst (mass_slider canon), snd (mass_slider canon)) r
               = negb (F64.isna (Mass_g r))).
    { intros r Hr. rewrite <- (mass_slider_mask canon r Hr).
      now destruct (mass_slider canon). }
    intros r. rewrite filter_In. unfold passes.
    cbn [sel selected_types selected_year_range selected_mass_range].
    split.
    + intros [Hr Hp]. split; [exact Hr|].
      rewrite !andb_true_iff in Hp. destruct Hp as [[[Ht Hm] Hy] Hyr].
      rewrite (Hmask r Hr), negb_true_iff in Hm.
      split; [|split; [exact Hm | now apply year_mask_spec]].
      apply orb_true_iff in Ht as [Ht|Ht].
      * right. rewrite negb_involutive in Ht.
        intros r' Hr'. destruct (Type_ r') as [t|] eqn:Et; [|reflexivity].
        assert (Hin : In t (available_types canon)) by (apply available_types_In; eauto).
        destruct (available_types canon); [contradiction | discriminate].
      * left. apply isin_spec in Ht as (t & -> & _). discriminate.
    + intros (Hr & Ht & Hm & Hy). split; [exact Hr|].
      rewrite !andb_true_iff, (Hmask r Hr), Hm.
      apply year_mask_spec in Hy as [Hy1 Hy2].
      repeat split; try assumption.
      apply orb_true_iff. destruct Ht as [Ht|Ht].
      * right. destruct (Type_ r) as [t|] eqn:Et; [|congruence].
        apply existsb_eqb_In, available_types_In. eauto.
      * left. rewrite negb_involutive.
        destruct (available_types canon) as [|t ts] eqn:Ea; [reflexivity|].
        assert (Hin : In t (available_types canon)) by (rewrite Ea; now left).
        apply available_types_In in Hin as (r' & Hr' & Et).
        rewrite (Ht r' Hr') in Et. discriminate.
Qed.

Lemma default_selection_rows_witness :
  (PrimFloat.ltb (fst (mass_slider Sample.meteorite_data))
     (snd (mass_slider Sample.meteorite_data)) = false ->
   default_selection PrimFloat.ltb Sample.meteorite_data = Raise StreamlitAPIException)
  /\ ((forall x, PrimFloat.ltb x x = false) ->
      forall m,
        (exists r, In r Sample.meteorite_data /\ F64.isna (Mass_g r) = false) ->
        (forall r, In r Sample.meteorite_data -> F64.isna (Mass_g r) = false ->
                   Mass_g r = m) ->
        default_selection PrimFloat.ltb Sample.meteorite_data
        = Raise StreamlitAPIException)
  /\ (PrimFloat.ltb (fst (mass_slider Sample.meteorite_data))
        (snd (mass_slider Sample.meteorite_data)) = true ->
      exists sel fd h' result,
        default_selection PrimFloat.ltb Sample.meteorite_data = Ok sel
        /\ apply_filters 0%nat sel [Sample.meteorite_data] = (Ok fd, h')
        /\ h' !! fd = Some result
        /\ sublist result Sample.meteorite_data
        /\ forall r, In r result
                     <-> In r Sample.meteorite_data
                         /\ (Type_ r <> None
                             \/ forall r', In r' Sample.meteorite_data -> Type_ r' = None)
                         /\ F64.isna (Mass_g r) = false
                         /\ year_within (slider_min_year, slider_max_year) r).
Proof.
  apply (default_selection_rows PrimFloat.ltb [Sample.meteorite_data] 0%nat
           Sample.meteorite_data).
  reflexivity.
Defined.
(** ** The display step and the pass of [main] for the slider's years *)

Section Display.

Import F64Facts.

Lemma slider_year_finite (z : Z) :
  slider_min_year <= z <= slider_max_year -> F64.finite (F64.of_Z z) = true.
Proof.
  unfold slider_min_year, slider_max_year. intros Hz.
  assert (H : forallb (fun n => F64.finite (F64.of_Z (1399 + Z.of_nat n))) (seq 0 627) = true)
    by (vm_compute; reflexivity).
  rewrite forallb_forall in H.
  specialize (H (Z.to_nat (z - 1399))).
  replace (1399 + Z.of_nat (Z.to_nat (z - 1399))) with z in H by lia.
  apply H, in_seq. lia.
Qed.

Lemma finite_between (a y b : float) :
  F64.finite a = true -> F64.finite b = true ->
  F64.leb a y = true -> F64.leb y b = true -> F64.finite y = true.
Proof.
  unfold F64.finite, F64.leb. rewrite !FloatAxioms.leb_spec. unfold SFleb, SFcompare.
  destruct (Prim2SF a) as [sa|sa| |sa ma ea], (Prim2SF y) as [sy|sy| |sy my ey],
    (Prim2SF b) as [sb|sb| |sb mb eb];
    try discriminate; try reflexivity; intros _ _; destruct sy; discriminate.
Qed.

Lemma finite_trunc (y : float) : F64.finite y = true -> exists v, F64.trunc y = Some v.
Proof.
  unfold F64.finite, F64.trunc. destruct (Prim2SF y); try discriminate; eauto.
Qed.

(** A year that passed the year filter of a slider range casts to an
    integer. *)
Lemma astype_int_in_range (year_range : Z * Z) (r : record) :
  slider_years year_range ->
  year_mask year_range r = true ->
  astype_int (Year r) = Ok (shown_year (Year r))
  /\ exists z, shown_year (Year r) = Int64 z.
Proof.
  intros [H1 H2] Hm. unfold year_mask in Hm. apply andb_true_iff in Hm as [Hge Hle].
  unfold shown_year. destruct (Year r) as [y|z]; simpl in *; [|eauto].
  assert (Hf : F64.finite y = true).
  { apply (finite_between (F64.of_Z (fst year_range)) y (F64.of_Z (snd year_range)));
      auto using slider_year_finite. }
  destruct (finite_trunc y Hf) as [v ->]. eauto.
Qed.

Lemma astype_int_column (year_range : Z * Z) (rows : frame) :
  slider_years year_range ->
  Forall (fun r => year_mask year_range r = true) rows ->
  result_mapM astype_int (map Year rows) = Ok (map shown_year (map Year rows)).
Proof.
  intros Hs. induction 1 as [|r rows Hr Hrows IH]; simpl; [reflexivity|].
  destruct (astype_int_in_range year_range r Hs Hr) as [-> _]. simpl.
  now rewrite IH.
Qed.

Lemma set_Year_column_map (rows : frame) (f : number -> number) :
  set_Year_column rows (map f (map Year rows)) = map (fun r => set_Year r (f (Year r))) rows.
Proof. induction rows as [|r rows IH]; simpl; now rewrite ?IH. Qed.

Lemma passes_year_mask (types : bool) (sel : selection) (canon : frame) :
  Forall (fun r => year_mask (selected_year_range sel) r = true)
    (List.filter (passes types sel) canon).
Proof.
  apply List.Forall_forall. intros r [_ Hp]%filter_In. unfold passes in Hp.
  now apply andb_true_iff in Hp as [_ Hp].
Qed.

(** Lines 330-350 for a slider range: no exception, and the frame returned
    holds the passing rows with their years cast. *)
Lemma run_filter_for_display_slider (h : heap) (md : ref) (canon : frame) (sel : selection) :
  h !! md = Some canon ->
  slider_years (selected_year_range sel) ->
  exists fd h',
    filter_for_display md sel h = (Ok fd, h')
    /\ h' !! fd
       = Some (map shown_row
                 (List.filter (passes (negb (is_empty (selected_types sel))) sel) canon))
    /\ h' !! md = Some canon.
Proof.
  intros Hmd Hs.
  destruct (run_apply_filters h md canon sel Hmd) as [tmp Hrun].
  set (rows := List.filter _ canon) in *.
  unfold filter_for_display. rewrite (bind_run _ _ _ _ _ Hrun).
  assert (Hcast : df_Year_astype_int (length (h ++ tmp)) ((h ++ tmp) ++ [rows])
                  = (Ok tt, <[length (h ++ tmp) := map shown_row rows]> ((h ++ tmp) ++ [rows]))).
  { unfold df_Year_astype_int.
    rewrite (bind_run _ _ _ _ _ (run_read_frame _ _ _ (lookup_new _ rows))).
    unfold lift, bind, write_frame.
    rewrite (astype_int_column _ rows Hs (passes_year_mask _ sel canon)).
    now rewrite set_Year_column_map. }
  rewrite (bind_run _ _ _ _ _ Hcast). unfold ret.
  eexists _, _. split; [reflexivity|].
  split.
  - apply list_lookup_insert_eq. rewrite !length_app. simpl. lia.
  - rewrite (list_lookup_insert_ne ((h ++ tmp) ++ [rows]) (length (h ++ tmp)) md);
      [now apply lookup_old|].
    apply lookup_lt_Some in Hmd. rewrite length_app. lia.
Qed.

Lemma run_main_slider (h : heap) (md : ref) (canon : frame) (sel : selection) :
  h !! md = Some canon ->
  slider_years (selected_year_range sel) ->
  exists p h',
    main md sel h = (Ok p, h')
    /\ h' !! table p
       = Some (map shown_row
                 (List.filter (passes (negb (is_empty (selected_types sel))) sel) canon))
    /\ h' !! md = Some canon
    /\ filtered_records p
       = length (List.filter (passes (negb (is_empty (selected_types sel))) sel) canon)
    /\ total_data_count p = length canon
    /\ chart2 p
       = (if (filtered_records p =? 0)%nat then None
          else chart_type_distribution
                 (map shown_row
                    (List.filter (passes (negb (is_empty (selected_types sel))) sel) canon))).
Proof.
  intros Hmd Hs.
  destruct (run_filter_for_display_slider h md canon sel Hmd Hs) as (fd & h' & Hf & Hfd & Hmd').
  unfold main. rewrite (bind_run _ _ _ _ _ Hf).
  rewrite (bind_run _ _ _ _ _ (run_read_frame _ _ _ Hfd)).
  rewrite (bind_run _ _ _ _ _ (run_read_frame _ _ _ Hmd')).
  unfold ret. eexists _, _. split; [reflexivity|]. simpl.
  split; [exact Hfd|]. split; [exact Hmd'|].
  unfold get_df_count. rewrite length_map. split; [reflexivity|]. split; [reflexivity|].
  now destruct (List.filter _ canon).
Qed.

End Display.

(** ** More on the filters, the loader and chart 2 *)

Section MoreFacts.

Import F64Facts.

Lemma filter_idem {A} (p : A -> bool) (l : list A) :
  List.filter p (List.filter p l) = List.filter p l.
Proof.
  rewrite filter_filter. apply filter_ext. intros a. now destruct (p a).
Qed.

Lemma filter_sublist_impl {A} (p q : A -> bool) (l : list A) :
  (forall a, p a = true -> q a = true) ->
  sublist (List.filter p l) (List.filter q l).
Proof.
  intros H. induction l as [|a l IH]; simpl; [constructor|].
  destruct (p a) eqn:Ep.
  - rewrite (H a Ep). now constructor.
  - destruct (q a); [now constructor | exact IH].
Qed.

Lemma of_Z_next (z : Z) :
  slider_min_year <= z < slider_max_year ->
  F64.leb (F64.of_Z z) (F64.of_Z (z + 1)) = true.
Proof.
  unfold slider_min_year, slider_max_year. intros Hz.
  assert (H : forallb (fun n => F64.leb (F64.of_Z (1399 + Z.of_nat n))
                                  (F64.of_Z (1399 + Z.of_nat n + 1)))
                (seq 0 626) = true)
    by (vm_compute; reflexivity).
  rewrite forallb_forall in H.
  specialize (H (Z.to_nat (z - 1399))).
  replace (1399 + Z.of_nat (Z.to_nat (z - 1399))) with z in H by lia.
  apply H, in_seq. lia.
Qed.

Lemma finite_notna (x : float) : F64.finite x = true -> F64.isna x = false.
Proof.
  unfold F64.finite. intros H. apply notna_spec. intros E. rewrite E in H. discriminate.
Qed.

(** On the slider's years the conversion to float keeps the order. *)
Lemma of_Z_monotone (z1 z2 : Z) :
  slider_min_year <= z1 -> z1 <= z2 -> z2 <= slider_max_year ->
  F64.leb (F64.of_Z z1) (F64.of_Z z2) = true.
Proof.
  intros H1 H12 H2.
  replace z2 with (z1 + Z.of_nat (Z.to_nat (z2 - z1))) by lia.
  assert (Hn : z1 + Z.of_nat (Z.to_nat (z2 - z1)) <= slider_max_year) by lia.
  induction (Z.to_nat (z2 - z1)) as [|n IH].
  - rewrite Z.add_0_r. apply leb_refl, finite_notna, slider_year_finite. lia.
  - apply (leb_trans _ (F64.of_Z (z1 + Z.of_nat n))); [apply IH; lia|].
    replace (z1 + Z.of_nat (S n)) with (z1 + Z.of_nat n + 1) by lia.
    apply of_Z_next. lia.
Qed.

Lemma year_mask_wider (yr1 yr2 : Z * Z) (r : record) :
  slider_years yr1 -> slider_years yr2 ->
  fst yr2 <= fst yr1 -> snd yr1 <= snd yr2 ->
  year_mask yr1 r = true -> year_mask yr2 r = true.
Proof.
  intros [A1 B1] [A2 B2] Hlo Hhi. unfold year_mask, number_ge, number_le, F64.geb.
  rewrite !andb_true_iff. destruct (Year r) as [y|z].
  - intros [Hge Hle]. split.
    + apply (leb_trans _ (F64.of_Z (fst yr1))); [|exact Hge].
      apply of_Z_monotone; lia.
    + apply (leb_trans _ (F64.of_Z (snd yr1))); [exact Hle|].
      apply of_Z_monotone; lia.
  - rewrite !Z.leb_le. lia.
Qed.

Lemma mass_mask_wider (m1 m2 : float * float) (r : record) :
  F64.leb (fst m2) (fst m1) = true -> F64.leb (snd m1) (snd m2) = true ->
  mass_mask m1 r = true -> mass_mask m2 r = true.
Proof.
  intros Hlo Hhi. unfold mass_mask, F64.geb. rewrite !andb_true_iff.
  intros [H1 H2]. split; eapply leb_trans; eassumption.
Qed.

Lemma isin_incl (v1 v2 : list string) (t : option string) :
  incl v1 v2 -> isin v1 t = true -> isin v2 t = true.
Proof.
  intros Hincl. rewrite !isin_spec. intros (s & E & Hin). exists s. auto.
Qed.

(** Fixed points of the cleaning of a code. *)
Lemma re_sub_digits_fixed (s : string) : Text.no_digit s -> Text.re_sub_digits s = s.
Proof.
  unfold Text.no_digit. induction s as [|a s IH]; simpl; intros H; [reflexivity|].
  rewrite (H a (or_introl eq_refl)). f_equal. apply IH. intros c Hc. apply H. now right.
Qed.

Lemma lstrip_fixed (s : string) : Text.no_leading_space s -> Text.lstrip s = s.
Proof.
  unfold Text.no_leading_space. destruct s as [|a s]; simpl; intros H; [reflexivity|].
  now rewrite (H a s eq_refl).
Qed.

Lemma rstrip_fixed (s : string) : Text.no_trailing_space s -> Text.rstrip s = s.
Proof.
  unfold Text.no_trailing_space. induction s as [|a s IH]; simpl; intros H; [reflexivity|].
  rewrite IH.
  - destruct s as [|b s]; [|reflexivity].
    now rewrite (H EmptyString a eq_refl).
  - intros t c E. apply (H (String a t) c). simpl. now rewrite E.
Qed.

Lemma strip_fixed (s : string) :
  Text.no_leading_space s -> Text.no_trailing_space s -> Text.strip s = s.
Proof.
  intros H1 H2. unfold Text.strip. rewrite lstrip_fixed by exact H1. now apply rstrip_fixed.
Qed.

Lemma count_values_none (col : list (option string)) :
  Forall (fun v => v = None) col -> count_values col = [].
Proof.
  unfold count_values. induction 1 as [|v col -> _ IH]; simpl; [reflexivity | exact IH].
Qed.

Lemma type_counts_total (df : frame) :
  total (type_counts df) = length (List.filter (fun r => present (Type_ r)) df).
Proof.
  unfold type_counts, value_counts.
  rewrite (total_perm _ (count_values (map Type_ df)))
    by (now rewrite !sort_counts_perm).
  unfold count_values.
  change (fold_left _ (map Type_ df) []) with (fold_left count_step (map Type_ df) []).
  rewrite total_fold. simpl. apply filter_map_length.
Qed.

Lemma type_counts_keys (df : frame) (t : string) :
  In t (map fst (type_counts df)) <-> exists r, In r df /\ Type_ r = Some t.
Proof.
  assert (Hp : Permutation (map fst (type_counts df)) (first_keys (map Type_ df))).
  { unfold type_counts, value_counts. rewrite <- keys_count_values.
    apply Permutation_map. now rewrite !sort_counts_perm. }
  assert (H : In t (map fst (type_counts df)) <-> In t (first_keys (map Type_ df))).
  { split; apply Permutation_in; [|symmetry]; exact Hp. }
  rewrite H, first_keys_In, in_map_iff. split; intros (r & H1 & H2); eauto.
Qed.

Lemma type_counts_NoDup (df : frame) : NoDup (map fst (type_counts df)).
Proof.
  assert (Hp : Permutation (map fst (type_counts df)) (first_keys (map Type_ df))).
  { unfold type_counts, value_counts. rewrite <- keys_count_values.
    apply Permutation_map. now rewrite !sort_counts_perm. }
  rewrite Hp. apply NoDup_first_keys.
Qed.

End MoreFacts.

(** ** Properties of the filters, the display step and the counts *)

(** For a year range of the slider, lines 330-350 raise nothing: the frame
    returned holds the passing rows of the Dataset, in order, each with its
    year cast to an integer and its other columns unchanged, and the Dataset
    itself is still in place. *)
Theorem filtering_completes
  (h : heap) (md : ref) (canon : frame) (sel : selection) :
  h !! md = Some canon ->
  slider_years (selected_year_range sel) ->
  exists fd h' shown,
    filter_for_display md sel h = (Ok fd, h')
    /\ h' !! fd = Some shown
    /\ h' !! md = Some canon
    /\ shown = map shown_row
                 (List.filter (passes (negb (is_empty (selected_types sel))) sel) canon)
    /\ Forall (fun s => exists z, Year s = Int64 z) shown.
Proof.
  intros Hmd Hs.
  destruct (run_filter_for_display_slider h md canon sel Hmd Hs) as (fd & h' & Hf & Hfd & Hmd').
  eexists _, _, _. split; [exact Hf|]. split; [exact Hfd|]. split; [exact Hmd'|].
  split; [reflexivity|].
  apply List.Forall_forall. intros s (r & <- & Hr)%in_map_iff.
  pose proof (passes_year_mask (negb (is_empty (selected_types sel))) sel canon) as Hy.
  rewrite List.Forall_forall in Hy.
  destruct (astype_int_in_range _ r Hs (Hy r Hr)) as [_ Hz]. exact Hz.
Qed.

Lemma filtering_completes_witness :
  exists fd h' shown,
    filter_for_display 0%nat Sample.everything [Sample.meteorite_data] = (Ok fd, h')
    /\ h' !! fd = Some shown
    /\ h' !! 0%nat = Some Sample.meteorite_data
    /\ shown = map shown_row
                 (List.filter
                    (passes (negb (is_empty (selected_types Sample.everything)))
                       Sample.everything)
                    Sample.meteorite_data)
    /\ Forall (fun s => exists z, Year s = Int64 z) shown.
Proof.
  apply (filtering_completes [Sample.meteorite_data] 0%nat Sample.meteorite_data
           Sample.everything); [reflexivity|].
  unfold slider_years, slider_min_year, slider_max_year. simpl. lia.
Defined.

(** In a pass of [main] that completes, for a year range of the slider, the
    number of records displayed is the number of passing rows and never
    exceeds the total, which is the size of the Dataset; chart 3 is drawn
    exactly when some record is displayed, and chart 2 is not drawn when none
    is. *)
Theorem main_counts
  (h : heap) (md : ref) (canon : frame) (sel : selection) (p : page) (h' : heap) :
  h !! md = Some canon ->
  slider_years (selected_year_range sel) ->
  main md sel h = (Ok p, h') ->
  filtered_records p
  = length (List.filter (passes (negb (is_empty (selected_types sel))) sel) canon)
  /\ total_data_count p = length canon
  /\ (filtered_records p <= total_data_count p)%nat
  /\ (chart3 p = None <-> filtered_records p = 0%nat)
  /\ (filtered_records p = 0%nat -> chart2 p = None).
Proof.
  intros Hmd Hs Hrun.
  destruct (run_main_slider h md canon sel Hmd Hs)
    as (p' & h'' & Hrun' & _ & _ & Hn & Ht & Hc2).
  rewrite Hrun in Hrun'. injection Hrun' as <- <-.
  destruct (run_main h md canon sel p h' Hmd Hrun) as [Hc3 _].
  split; [exact Hn|]. split; [exact Ht|].
  split; [rewrite Hn, Ht; apply filter_length_le|]. split.
  - rewrite Hc3. destruct (Nat.eqb_spec (filtered_records p) 0); split; congruence.
  - intros E. rewrite Hc2, E. reflexivity.
Qed.

Lemma main_counts_witness :
  filtered_records (Sample.shown_page Sample.year_2000)
  = length (List.filter
              (passes (negb (is_empty (selected_types Sample.year_2000)))
                 Sample.year_2000)
              Sample.meteorite_data)
  /\ total_data_count (Sample.shown_page Sample.year_2000) = length Sample.meteorite_data
  /\ (filtered_records (Sample.shown_page Sample.year_2000)
      <= total_data_count (Sample.shown_page Sample.year_2000))%nat
  /\ (chart3 (Sample.shown_page Sample.year_2000) = None
      <-> filtered_records (Sample.shown_page Sample.year_2000) = 0%nat)
  /\ (filtered_records (Sample.shown_page Sample.year_2000) = 0%nat ->
      chart2 (Sample.shown_page Sample.year_2000) = None).
Proof.
  apply (main_counts [Sample.meteorite_data] 0%nat Sample.meteorite_data
           Sample.year_2000 (Sample.shown_page Sample.year_2000)
           (snd (Sample.pass Sample.year_2000))); [reflexivity | | reflexivity].
  unfold slider_years, slider_min_year, slider_max_year. simpl. lia.
Defined.

(** Chart 2 warns and draws nothing exactly when no row has a category;
    otherwise it draws one bar per category that occurs. *)
Theorem chart_type_distribution_empty (df : frame) :
  (chart_type_distribution df = None <-> forall r, In r df -> Type_ r = None)
  /\ forall bars, chart_type_distribution df = Some bars ->
       bars = type_counts df
       /\ forall t, In t (map fst bars) <-> exists r, In r df /\ Type_ r = Some t.
Proof.
  split.
  - unfold chart_type_distribution. split.
    + intros H r Hr. destruct (Type_ r) as [t|] eqn:Et; [|reflexivity].
      assert (Hin : In t (map fst (type_counts df))) by (apply type_counts_keys; eauto).
      destruct (type_counts df); [contradiction | discriminate].
    + intros H.
      assert (E : type_counts df = []).
      { unfold type_counts, value_counts. rewrite count_values_none; [reflexivity|].
        apply List.Forall_forall. intros v (r & <- & Hr)%in_map_iff. now apply H. }
      now rewrite E.
  - intros bars H. unfold chart_type_distribution in H.
    assert (E : bars = type_counts df) by (destruct (type_counts df); congruence).
    split; [exact E|]. intros t. rewrite E. apply type_counts_keys.
Qed.

(** When some type is selected and some record is displayed, chart 2 is
    drawn: the warning for missing categories can only show with an empty
    selection. *)
Theorem chart2_drawn
  (h : heap) (md : ref) (canon : frame) (sel : selection) (p : page) (h' : heap) :
  h !! md = Some canon ->
  slider_years (selected_year_range sel) ->
  selected_types sel <> [] ->
  main md sel h = (Ok p, h') ->
  filtered_records p <> 0%nat ->
  exists bars, chart2 p = Some bars /\ bars <> [].
Proof.
  intros Hmd Hs Hsel Hrun Hn.
  destruct (run_main_slider h md canon sel Hmd Hs)
    as (p' & h'' & Hrun' & _ & _ & Hlen & _ & Hc2).
  rewrite Hrun in Hrun'. injection Hrun' as <- <-.
  apply Nat.eqb_neq in Hn as Hn'. rewrite Hn' in Hc2.
  set (rows := List.filter _ canon) in *.
  destruct (chart_type_distribution (map shown_row rows)) as [bars|] eqn:E.
  - exists bars. split; [exact Hc2|]. unfold chart_type_distribution in E.
    destruct (type_counts (map shown_row rows)); [discriminate | congruence].
  - exfalso. destruct rows as [|r rows'] eqn:Er; [simpl in Hlen; congruence|].
    assert (Hr : In r (List.filter (passes (negb (is_empty (selected_types sel))) sel) canon))
      by (fold rows; rewrite Er; now left).
    apply filter_In in Hr as [_ Hp]. apply passes_spec in Hp as [Ht _].
    destruct (selected_types sel) as [|t0 ts] eqn:Et; [congruence|].
    destruct (Ht eq_refl) as (t & Htype & _).
    unfold chart_type_distribution in E.
    assert (Hin : In t (map fst (type_counts (map shown_row (r :: rows'))))).
    { apply type_counts_keys. exists (shown_row r). split; [now left | exact Htype]. }
    destruct (type_counts (map shown_row (r :: rows'))); [contradiction | discriminate].
Qed.

Lemma chart2_drawn_witness :
  exists bars, chart2 (Sample.shown_page Sample.year_2000) = Some bars /\ bars <> [].
Proof.
  apply (chart2_drawn [Sample.meteorite_data] 0%nat Sample.meteorite_data
           Sample.year_2000 (Sample.shown_page Sample.year_2000)
           (snd (Sample.pass Sample.year_2000)));
    try reflexivity; try discriminate.
  unfold slider_years, slider_min_year, slider_max_year. simpl. lia.
Defined.

(** Filtering the filtered frame again with the same selection changes
    nothing. *)
Theorem apply_filters_idempotent
  (h : heap) (md : ref) (canon : frame) (sel : selection) :
  h !! md = Some canon ->
  exists fd1 h1 fd2 h2 rows,
    apply_filters md sel h = (Ok fd1, h1)
    /\ h1 !! fd1 = Some rows
    /\ apply_filters fd1 sel h1 = (Ok fd2, h2)
    /\ h2 !! fd2 = Some rows.
Proof.
  intros Hmd.
  destruct (run_apply_filters h md canon sel Hmd) as [t1 R1].
  set (rows := List.filter _ canon) in *.
  assert (H1 : ((h ++ t1) ++ [rows]) !! length (h ++ t1) = Some rows) by apply lookup_new.
  destruct (run_apply_filters _ _ rows sel H1) as [t2 R2].
  assert (E : List.filter (passes (negb (is_empty (selected_types sel))) sel) rows = rows)
    by (unfold rows; apply filter_idem).
  rewrite E in R2.
  eexists _, _, _, _, rows. split; [exact R1|]. split; [exact H1|].
  split; [exact R2|]. apply lookup_new.
Qed.

Lemma apply_filters_idempotent_witness :
  exists fd1 h1 fd2 h2 rows,
    apply_filters 0%nat Sample.everything [Sample.meteorite_data] = (Ok fd1, h1)
    /\ h1 !! fd1 = Some rows
    /\ apply_filters fd1 Sample.everything h1 = (Ok fd2, h2)
    /\ h2 !! fd2 = Some rows.
Proof.
  apply (apply_filters_idempotent [Sample.meteorite_data] 0%nat Sample.meteorite_data
           Sample.everything). reflexivity.
Defined.

(** Deselecting types (while some stay selected) or narrowing the mass or
    year range never adds a row: the rows returned are among those returned
    for the wider selection, in the same order. *)
Theorem narrowing_never_adds
  (h : heap) (md : ref) (canon : frame) (sel1 sel2 : selection) :
  h !! md = Some canon ->
  slider_years (selected_year_range sel1) ->
  slider_years (selected_year_range sel2) ->
  narrower sel1 sel2 ->
  exists fd1 h1 rows1 fd2 h2 rows2,
    apply_filters md sel1 h = (Ok fd1, h1) /\ h1 !! fd1 = Some rows1
    /\ apply_filters md sel2 h = (Ok fd2, h2) /\ h2 !! fd2 = Some rows2
    /\ sublist rows1 rows2.
Proof.
  intros Hmd Hs1 Hs2 (Hne & Hincl & Hlo & Hhi & Hylo & Hyhi).
  destruct (run_apply_filters h md canon sel1 Hmd) as [t1 R1].
  destruct (run_apply_filters h md canon sel2 Hmd) as [t2 R2].
  eexists _, _, _, _, _, _. split; [exact R1|]. split; [apply lookup_new|].
  split; [exact R2|]. split; [apply lookup_new|].
  apply filter_sublist_impl. intros r. unfold passes.
  destruct (selected_types sel1) as [|a l] eqn:E1; [congruence|]. simpl.
  rewrite !andb_true_iff. intros [[[Ht Hm] Hn] Hy].
  repeat split.
  - apply orb_true_iff. right. exact (isin_incl _ _ _ Hincl Ht).
  - exact (mass_mask_wider _ _ r Hlo Hhi Hm).
  - exact Hn.
  - exact (year_mask_wider _ _ r Hs1 Hs2 Hylo Hyhi Hy).
Qed.

Lemma narrowing_never_adds_witness :
  exists fd1 h1 rows1 fd2 h2 rows2,
    apply_filters 0%nat Sample.year_2000 [Sample.meteorite_data] = (Ok fd1, h1)
    /\ h1 !! fd1 = Some rows1
    /\ apply_filters 0%nat Sample.everything [Sample.meteorite_data] = (Ok fd2, h2)
    /\ h2 !! fd2 = Some rows2
    /\ sublist rows1 rows2.
Proof.
  apply (narrowing_never_adds [Sample.meteorite_data] 0%nat Sample.meteorite_data
           Sample.year_2000 Sample.everything); [reflexivity | | |].
  - unfold slider_years, slider_min_year, slider_max_year. simpl. lia.
  - unfold slider_years, slider_min_year, slider_max_year. simpl. lia.
  - unfold narrower. simpl. split; [discriminate|]. split; [apply incl_refl|].
    split; [reflexivity|]. split; [reflexivity|]. lia.
Defined.

(** ** Properties of the loader, the cleaning and the table *)

Lemma Forall2_map_r {A B} (P : A -> B -> Prop) (f : A -> B) (l : list A) :
  (forall a, In a l -> P a (f a)) -> Forall2 P l (map f l).
Proof.
  induction l as [|a l IH]; simpl; intros H; constructor.
  - apply H. now left.
  - apply IH. intros b Hb. apply H. now right.
Qed.

Lemma append_cons (a : ascii) (s d : string) :
  (String a s ++ d)%string = String a (s ++ d)%string.
Proof. reflexivity. Qed.

Lemma re_sub_digits_app (s d : string) :
  Text.re_sub_digits (s ++ d) = (Text.re_sub_digits s ++ Text.re_sub_digits d)%string.
Proof.
  induction s as [|a s IH]; [reflexivity|].
  rewrite append_cons. simpl. destruct (Text.is_digit a); [exact IH|].
  now rewrite append_cons, IH.
Qed.

Lemma re_sub_digits_all (d : string) :
  (forall c, In c (Text.chars d) -> Text.is_digit c = true) ->
  Text.re_sub_digits d = EmptyString.
Proof.
  induction d as [|a d IH]; simpl; intros H; [reflexivity|].
  rewrite (H a (or_introl eq_refl)). apply IH. intros c Hc. apply H. now right.
Qed.

Lemma string_app_empty (s : string) : (s ++ EmptyString)%string = s.
Proof. induction s as [|a s IH]; [reflexivity|]. now rewrite append_cons, IH. Qed.

(** No key of the table is changed by the cleaning. *)
Lemma keys_are_clean (key t : string) :
  meteorite_class !! key = Some t ->
  Text.strip (Text.re_sub_digits key) = key /\ Text.re_sub_digits key = key.
Proof.
  intros H. apply elem_of_map_to_list in H. apply list_elem_of_In in H.
  assert (Hall : forallb (fun kv : string * string =>
                            String.eqb (Text.strip (Text.re_sub_digits (fst kv))) (fst kv)
                            && String.eqb (Text.re_sub_digits (fst kv)) (fst kv))
                   (map_to_list meteorite_class) = true)
    by (vm_compute; reflexivity).
  rewrite forallb_forall in Hall. specialize (Hall _ H). simpl in Hall.
  apply andb_true_iff in Hall as [H1 H2].
  apply String.eqb_eq in H1. apply String.eqb_eq in H2. split; assumption.
Qed.

Lemma category_of_table (code t : string) :
  meteorite_class !! code = Some t -> In t categories.
Proof.
  intros H. apply elem_of_map_to_list in H. apply list_elem_of_In in H.
  unfold categories. apply (proj2 (nodup_In string_dec _ _)).
  exact (in_map snd _ _ H).
Qed.

(** What the loader returns holds the name, the mass, the discovery type and
    the coordinates of every line unchanged, under their new names; a year
    read as a number is kept, a year read as text is the number it spells; a
    classification is missing exactly where the field holds no text. *)
Theorem read_meteorite_date_keeps_values
  (parse_number : string -> option float) (csv : list Raw.record)
  (df : list cleaned) (n : nat) :
  read_meteorite_date parse_number csv = Ok (df, n) ->
  Forall2
    (fun r c =>
       c_id c = Raw.id r
       /\ c_Meteorite_Name c = Raw.name r
       /\ c_Mass_g c = Raw.mass_g r
       /\ c_Discovery_Type c = Raw.fall r
       /\ c_Latitude c = Raw.reclat r
       /\ c_Longitude c = Raw.reclong r
       /\ (forall x, Raw.year r = Number x -> c_Year c = Float64 x)
       /\ (forall s x, Raw.year r = Str s -> parse_number s = Some x ->
                       c_Year c = Float64 x)
       /\ (is_text (Raw.recclass r) = false <-> c_Classification c = None))
    csv df.
Proof.
  intros (_ & -> & _)%read_meteorite_date_Ok.
  apply Forall2_map_r. intros r _. unfold cleaned_row, renamed, coerced. simpl.
  repeat split; try reflexivity.
  - intros x ->. reflexivity.
  - intros s x -> ->. reflexivity.
  - destruct (Raw.recclass r); [reflexivity | discriminate].
  - destruct (Raw.recclass r); [reflexivity | discriminate].
Qed.

Lemma read_meteorite_date_keeps_values_witness :
  Forall2
    (fun r c =>
       c_id c = Raw.id r
       /\ c_Meteorite_Name c = Raw.name r
       /\ c_Mass_g c = Raw.mass_g r
       /\ c_Discovery_Type c = Raw.fall r
       /\ c_Latitude c = Raw.reclat r
       /\ c_Longitude c = Raw.reclong r
       /\ (forall x, Raw.year r = Number x -> c_Year c = Float64 x)
       /\ (forall s x, Raw.year r = Str s -> Sample.parse_number s = Some x ->
                       c_Year c = Float64 x)
       /\ (is_text (Raw.recclass r) = false <-> c_Classification c = None))
    Sample.csv Sample.cleaned_data.
Proof.
  apply (read_meteorite_date_keeps_values Sample.parse_number Sample.csv
           Sample.cleaned_data 5).
  vm_compute. reflexivity.
Defined.

(** Cleaning a cleaned code changes nothing, and a code without digits and
    without white space at its ends is left as it is. *)
Theorem clean_classification_idempotent (v : option string) :
  clean_classification (clean_classification v) = clean_classification v
  /\ forall s,
       Text.no_digit s -> Text.no_leading_space s -> Text.no_trailing_space s ->
       clean_classification (Some s) = Some s.
Proof.
  assert (Hfix : forall s,
             Text.no_digit s -> Text.no_leading_space s -> Text.no_trailing_space s ->
             clean_classification (Some s) = Some s).
  { intros s Hd Hl Ht. simpl. rewrite re_sub_digits_fixed by exact Hd.
    now rewrite strip_fixed. }
  split; [|exact Hfix].
  destruct (clean_classification v) as [c|] eqn:E; [|reflexivity].
  destruct (clean_classification_clean v c E) as (Hd & Hl & Ht). now apply Hfix.
Qed.

(** A classification made of a key of the table followed by digits, such as
    a petrologic grade, gets the category of the key. *)
Theorem graded_code_category (key digits t : string) :
  meteorite_class !! key = Some t ->
  (forall c, In c (Text.chars digits) -> Text.is_digit c = true) ->
  map_class (clean_classification (Some (key ++ digits)%string)) = Some t.
Proof.
  intros Hkey Hdigits. simpl.
  destruct (keys_are_clean key t Hkey) as [H1 H2].
  rewrite re_sub_digits_app, (re_sub_digits_all digits Hdigits), string_app_empty.
  now rewrite H1.
Qed.

Lemma graded_code_category_witness :
  map_class (clean_classification (Some ("LL" ++ "6")%string)) = Some "Ordinary Chondrite"%string.
Proof.
  apply (graded_code_category "LL" "6" "Ordinary Chondrite").
  - reflexivity.
  - intros c [<-|[]]. reflexivity.
Defined.

(** Chart 2 never has more than 14 bars when the categories come from the
    table. *)
Theorem at_most_14_bars (df : frame) :
  Forall (fun r => Type_ r = map_class (Classification r)) df ->
  (length (type_counts df) <= 14)%nat.
Proof.
  intros H. rewrite <- (length_map fst).
  change 14%nat with (length categories).
  apply NoDup_incl_length.
  - apply NoDup_ListNoDup, type_counts_NoDup.
  - intros t (r & Hr & Et)%type_counts_keys.
    rewrite List.Forall_forall in H. rewrite (H r Hr) in Et.
    destruct (Classification r) as [code|]; [|discriminate Et].
    exact (category_of_table code t Et).
Qed.

Lemma at_most_14_bars_witness : (length (type_counts Sample.meteorite_data) <= 14)%nat.
Proof.
  apply (at_most_14_bars Sample.meteorite_data). repeat constructor.
Defined.

(** ** The distinct values of a list *)

Section Uniq.

Context {K : Type}.
Variable eqb : K -> K -> bool.
Variable P : K -> Prop.

(** [eqb] decides equality on the keys that satisfy [P]. *)
Hypothesis eqb_spec : forall a b, P a -> P b -> (eqb a b = true <-> a = b).

Lemma existsb_eqb_on v seen :
  P v -> Forall P seen -> (existsb (eqb v) seen = true <-> In v seen).
Proof.
  intros Hv Hs. rewrite existsb_exists. rewrite List.Forall_forall in Hs. split.
  - intros (x & Hx & E). apply eqb_spec in E; [now subst | exact Hv | now apply Hs].
  - intros H. exists v. split; [exact H|]. now apply eqb_spec.
Qed.

Lemma uniq_snoc l v :
  uniq eqb (l ++ [v])
  = if existsb (eqb v) (uniq eqb l) then uniq eqb l else uniq eqb l ++ [v].
Proof. unfold uniq. now rewrite fold_left_app. Qed.

Lemma uniq_incl x l : In x (uniq eqb l) -> In x l.
Proof.
  induction l as [|v l IH] using rev_ind; [intros H; exact H|].
  rewrite uniq_snoc, in_app_iff.
  destruct (existsb (eqb v) (uniq eqb l)); [now left; apply IH|].
  rewrite in_app_iff. intros [H|H]; [left; now apply IH | now right].
Qed.

Lemma uniq_on l : Forall P l -> Forall P (uniq eqb l).
Proof.
  intros H. rewrite List.Forall_forall in *. intros x Hx. now apply H, uniq_incl.
Qed.

Lemma uniq_In x l : Forall P l -> (In x (uniq eqb l) <-> In x l).
Proof.
  induction l as [|v l IH] using rev_ind; intros H; [reflexivity|].
  apply List.Forall_app in H as [Hl Hv]. inversion Hv as [|? ? Pv _]; subst.
  specialize (IH Hl). rewrite uniq_snoc, in_app_iff.
  destruct (existsb (eqb v) (uniq eqb l)) eqn:E.
  - apply existsb_eqb_on in E; [|exact Pv | now apply uniq_on].
    apply uniq_incl in E. rewrite IH. simpl.
    split; [tauto | intros [H|[<-|[]]]; assumption].
  - rewrite in_app_iff, IH. reflexivity.
Qed.

Lemma uniq_NoDup l : Forall P l -> List.NoDup (uniq eqb l).
Proof.
  induction l as [|v l IH] using rev_ind; intros H; [constructor|].
  apply List.Forall_app in H as [Hl Hv]. inversion Hv as [|? ? Pv _]; subst.
  specialize (IH Hl). rewrite uniq_snoc.
  destruct (existsb (eqb v) (uniq eqb l)) eqn:E; [exact IH|].
  apply NoDup_app_remove_l with (l := []). simpl.
  apply Permutation_NoDup with (l := v :: uniq eqb l).
  - apply Permutation_cons_append.
  - constructor; [|exact IH]. intros Hin.
    apply existsb_eqb_on in Hin; [congruence | exact Pv | now apply uniq_on].
Qed.

(** Looking a key up in a table that holds [g k] for each key [k] of [keys]. *)
Lemma find_key {V} (g : K -> V) (k0 : K) (keys : list K) :
  P k0 -> Forall P keys ->
  option_map snd (find (fun e => eqb (fst e) k0) (map (fun k => (k, g k)) keys))
  = if existsb (eqb k0) keys then Some (g k0) else None.
Proof.
  intros H0. induction 1 as [|k keys Hk Hks IH]; simpl; [reflexivity|].
  destruct (eqb k k0) eqn:E.
  - apply eqb_spec in E; [|exact Hk | exact H0]. subst k.
    now rewrite (proj2 (eqb_spec k0 k0 H0 H0) eq_refl).
  - rewrite IH. destruct (eqb k0 k) eqn:E'; [|reflexivity].
    apply eqb_spec in E'; [|exact H0 | exact Hk]. subst k.
    rewrite (proj2 (eqb_spec k0 k0 H0 H0) eq_refl) in E. discriminate.
Qed.

(** A key that is not in the list is counted zero times. *)
Lemma count_absent (k0 : K) (keys : list K) :
  P k0 -> Forall P keys -> existsb (eqb k0) keys = false ->
  length (List.filter (eqb k0) keys) = 0%nat.
Proof.
  intros H0. induction 1 as [|k keys Hk Hks IH]; simpl; [reflexivity|].
  destruct (eqb k0 k); simpl; [discriminate | exact IH].
Qed.

(** In a list without repetition one place at most holds [k0]. *)
Lemma count_once (k0 : K) (keys : list K) :
  P k0 -> Forall P keys -> List.NoDup keys -> In k0 keys ->
  length (List.filter (fun k => eqb k k0) keys) = 1%nat.
Proof.
  intros H0 Hks Hnd. induction Hnd as [|k keys Hk Hnd IH]; intros Hin; [destruct Hin|].
  inversion Hks as [|? ? Pk Hks']; subst. simpl.
  destruct (eqb k k0) eqn:E; simpl.
  - apply eqb_spec in E; [|exact Pk | exact H0]. subst k. f_equal.
    clear IH Hin Hks. induction keys as [|k keys IH]; simpl; [reflexivity|].
    inversion Hks' as [|? ? Pk' Hks'']; subst.
    destruct (eqb k k0) eqn:E.
    + apply eqb_spec in E; [|exact Pk' | exact H0]. subst k. destruct Hk. now left.
    + apply IH; [intros H; apply Hk; now right | now inversion Hnd | exact Hks''].
  - destruct Hin as [->|Hin]; [|now apply IH].
    rewrite (proj2 (eqb_spec k0 k0 H0 H0) eq_refl) in E. discriminate.
Qed.

End Uniq.

(** ** Sorting through an embedding *)

Section SortMap.

Context {A B : Type}.
Variable f : A -> B.
Variable leA : A -> A -> bool.
Variable leB : B -> B -> bool.
Hypothesis le_f : forall a b, leB (f a) (f b) = leA a b.

Lemma insert_map x l : insert leB (f x) (map f l) = map f (insert leA x l).
Proof.
  induction l as [|y l IH]; simpl; [reflexivity|].
  rewrite le_f. destruct (leA x y); [reflexivity|]. simpl. now rewrite IH.
Qed.

Lemma argsort_map l : argsort leB (map f l) = map f (argsort leA l).
Proof.
  induction l as [|x l IH]; [reflexivity|].
  change (insert leB (f x) (argsort leB (map f l)) = map f (insert leA x (argsort leA l))).
  rewrite IH. apply insert_map.
Qed.

End SortMap.

Section Views.

Implicit Types (df : frame) (r : record) (y : number) (t : string).

(** The years of a frame are integers: what [main] hands to its charts. *)
Local Abbreviation int_years df := (Forall (fun r => exists z, Year r = Int64 z) df).
Local Abbreviation int_key := (fun k : group_key => exists z, fst k = Int64 z).
Local Abbreviation int_number := (fun y : number => exists z, y = Int64 z).

Lemma number_eqb_int (a b : number) :
  int_number a -> int_number b -> (number_eqb a b = true <-> a = b).
Proof.
  intros [x ->] [z ->]. simpl. rewrite Z.eqb_eq. split; congruence.
Qed.

Lemma key_eqb_int (a b : group_key) :
  int_key a -> int_key b -> (key_eqb a b = true <-> a = b).
Proof.
  destruct a as [y1 t1], b as [y2 t2]. simpl. intros H1 H2. unfold key_eqb. simpl.
  rewrite andb_true_iff, (number_eqb_int _ _ H1 H2), String.eqb_eq.
  split; [intros [-> ->]; reflexivity | intros [= -> ->]; now split].
Qed.

Lemma string_eqb_on (a b : string) : True -> True -> (String.eqb a b = true <-> a = b).
Proof. intros _ _. apply String.eqb_eq. Qed.

Lemma all_int (l : list number) : Forall int_number l -> exists zs, l = map Int64 zs.
Proof.
  induction 1 as [|y l [z ->] _ [zs ->]]; [now exists []|]. now exists (z :: zs).
Qed.

Lemma sorted_NoDup_lt (zs : list Z) :
  StronglySorted (fun a b => (a <=? b) = true) zs -> List.NoDup zs ->
  StronglySorted Z.lt zs.
Proof.
  induction 1 as [|z zs Hs IH Hz]; intros Hnd; [constructor|].
  inversion Hnd as [|? ? Hz' Hnd']; subst. constructor; [now apply IH|].
  rewrite List.Forall_forall in *. intros x Hx.
  specialize (Hz x Hx). apply Z.leb_le in Hz.
  assert (x <> z) by (intros ->; contradiction). lia.
Qed.

Lemma dropna_int df :
  int_years df -> List.filter (fun r => negb (number_isna (Year r))) df = df.
Proof.
  induction 1 as [|r df [z Hz] _ IH]; simpl; [reflexivity|].
  rewrite Hz. simpl. now rewrite IH.
Qed.

Lemma group_rows_In df y t :
  In (y, t) (group_rows df) <-> exists r, In r df /\ Year r = y /\ Discovery_Type r = Some t.
Proof.
  unfold group_rows. rewrite in_flat_map. split.
  - intros (r & Hr & H). exists r. split; [exact Hr|].
    destruct (Discovery_Type r); [|destruct H].
    destruct H as [[= <- <-]|[]]. now split.
  - intros (r & Hr & <- & Ht). exists r. split; [exact Hr|]. rewrite Ht. now left.
Qed.

Lemma group_rows_int df : int_years df -> Forall int_key (group_rows df).
Proof.
  induction 1 as [|r df Hz _ IH]; simpl; [constructor|].
  destruct (Discovery_Type r); simpl; [constructor|]; assumption.
Qed.

(** The rows of a group are the rows of its year and discovery type. *)
Lemma group_count df y t :
  length (List.filter (key_eqb (y, t)) (group_rows df)) = landings df y t.
Proof.
  unfold landings, landed. induction df as [|r df IH]; simpl; [reflexivity|].
  destruct (Discovery_Type r) as [t'|]; simpl.
  - unfold key_eqb at 1. simpl.
    destruct (number_eqb y (Year r) && String.eqb t t'); simpl; now rewrite IH.
  - rewrite andb_false_r. exact IH.
Qed.

Lemma groupby_size_keys (keys : list group_key) :
  map fst (groupby_size keys) = argsort key_leb (uniq key_eqb keys).
Proof. unfold groupby_size. rewrite map_map. simpl. apply map_id. Qed.

Lemma groupby_size_In (keys : list group_key) (k : group_key) :
  Forall int_key keys -> (In k (map fst (groupby_size keys)) <-> In k keys).
Proof.
  intros H. rewrite groupby_size_keys, <- (uniq_In key_eqb _ key_eqb_int k keys H).
  split; apply Permutation_in; [|symmetry]; apply argsort_perm.
Qed.

(** A cell of the pivot after [fillna(0)]: the number of rows of the group,
    zero when the group does not occur. *)
Lemma pivot_cell (keys : list group_key) y t :
  int_number y -> Forall int_key keys ->
  match lookup_count (groupby_size keys) y t with
  | Some n => n
  | None => 0%nat
  end = length (List.filter (key_eqb (y, t)) keys).
Proof.
  intros Hy Hk. unfold lookup_count, groupby_size.
  assert (Hyt : int_key (y, t)) by exact Hy.
  assert (Hs : Forall int_key (argsort key_leb (uniq key_eqb keys))).
  { eapply Permutation_Forall; [symmetry; apply argsort_perm|].
    now apply (uniq_on key_eqb). }
  rewrite (find_key key_eqb _ key_eqb_int _ (y, t) _ Hyt Hs).
  destruct (existsb (key_eqb (y, t)) (argsort key_leb (uniq key_eqb keys))) eqn:E;
    [reflexivity|].
  symmetry. apply (count_absent key_eqb int_key); [exact Hyt | exact Hk|].
  destruct (existsb (key_eqb (y, t)) keys) eqn:E'; [|reflexivity].
  apply (existsb_eqb_on key_eqb _ key_eqb_int _ _ Hyt Hk) in E'.
  apply (uniq_In key_eqb _ key_eqb_int _ _ Hk) in E'.
  apply (Permutation_in _ (Permutation_sym (argsort_perm key_leb _))) in E'.
  apply (existsb_eqb_on key_eqb _ key_eqb_int _ _ Hyt Hs) in E'. congruence.
Qed.

Lemma years_int df (k : group_key) : int_years df -> In k (group_rows df) -> int_key k.
Proof.
  intros H Hk. pose proof (group_rows_int df H) as Hall.
  rewrite List.Forall_forall in Hall. now apply Hall.
Qed.

Lemma pivot_years_int df :
  int_years df ->
  Forall int_number (map (fun e => fst (fst e)) (groupby_size (group_rows df))).
Proof.
  intros H. apply List.Forall_forall. intros y (e & <- & He)%in_map_iff.
  apply (years_int df (fst e) H).
  apply (groupby_size_In _ _ (group_rows_int df H)). now apply in_map.
Qed.

Lemma pivot_index_In df y :
  int_years df ->
  (In y (index (pivot_counts df))
   <-> exists r, In r df /\ Year r = y /\ present (Discovery_Type r) = true).
Proof.
  intros H. unfold pivot_counts, pivot_fillna. simpl. rewrite (dropna_int df H).
  set (yc := groupby_size (group_rows df)).
  assert (E : In y (argsort number_leb (uniq number_eqb (map (fun e => fst (fst e)) yc)))
              <-> In y (map (fun e => fst (fst e)) yc)).
  { etransitivity; [|apply (uniq_In number_eqb _ number_eqb_int y _ (pivot_years_int df H))].
    split; apply Permutation_in; [|symmetry]; apply argsort_perm. }
  rewrite E. clear E. split.
  - intros (e & <- & He)%in_map_iff.
    apply (in_map fst) in He. apply (groupby_size_In _ _ (group_rows_int df H)) in He.
    destruct (fst e) as [y t]. apply group_rows_In in He as (r & Hr & Hy & Ht).
    exists r. split; [exact Hr|]. split; [exact Hy|]. now rewrite Ht.
  - intros (r & Hr & <- & Ht). destruct (Discovery_Type r) as [t|] eqn:Et; [|discriminate].
    assert (Hk : In (Year r, t) (map fst yc)).
    { apply (groupby_size_In _ _ (group_rows_int df H)), group_rows_In. eauto. }
    apply in_map_iff in Hk as (e & He & Hin). apply in_map_iff.
    exists e. split; [|exact Hin]. destruct e as [[y' t'] n]. simpl in *. congruence.
Qed.

Lemma pivot_columns_In df t :
  int_years df ->
  (In t (columns (pivot_counts df)) <-> exists r, In r df /\ Discovery_Type r = Some t).
Proof.
  intros H. unfold pivot_counts, pivot_fillna. simpl. rewrite (dropna_int df H).
  set (yc := groupby_size (group_rows df)).
  assert (E : In t (sorted (uniq String.eqb (map (fun e => snd (fst e)) yc)))
              <-> In t (map (fun e => snd (fst e)) yc)).
  { etransitivity; [|apply (uniq_In String.eqb (fun _ => True) string_eqb_on t)].
    - split; apply Permutation_in; [|symmetry]; apply argsort_perm.
    - apply List.Forall_forall. intros; exact I. }
  rewrite E. clear E. split.
  - intros (e & <- & He)%in_map_iff.
    apply (in_map fst) in He. apply (groupby_size_In _ _ (group_rows_int df H)) in He.
    destruct (fst e) as [y t]. apply group_rows_In in He as (r & Hr & Hy & Ht).
    exists r. now split.
  - intros (r & Hr & Ht).
    assert (Hk : In (Year r, t) (map fst yc)).
    { apply (groupby_size_In _ _ (group_rows_int df H)), group_rows_In. eauto. }
    apply in_map_iff in Hk as (e & He & Hin). apply in_map_iff.
    exists e. split; [|exact Hin]. destruct e as [[y' t'] n]. simpl in *. congruence.
Qed.

Lemma pivot_index_int df : int_years df -> Forall int_number (index (pivot_counts df)).
Proof.
  intros H. apply List.Forall_forall. intros y (r & Hr & <- & _)%(pivot_index_In df y H).
  rewrite List.Forall_forall in H. now apply H.
Qed.

Lemma pivot_index_NoDup df : int_years df -> List.NoDup (index (pivot_counts df)).
Proof.
  intros H. unfold pivot_counts, pivot_fillna. simpl. rewrite (dropna_int df H).
  eapply Permutation_NoDup; [symmetry; apply argsort_perm|].
  apply (uniq_NoDup number_eqb _ number_eqb_int), pivot_years_int, H.
Qed.

Lemma pivot_index_sorted df :
  int_years df ->
  exists zs, index (pivot_counts df) = map Int64 zs /\ StronglySorted Z.lt zs.
Proof.
  intros H. pose proof (pivot_index_NoDup df H) as Hnd. revert Hnd.
  unfold pivot_counts, pivot_fillna. simpl. rewrite (dropna_int df H).
  set (ys := uniq number_eqb _).
  assert (Hys : Forall int_number ys)
    by (apply (uniq_on number_eqb), pivot_years_int, H).
  destruct (all_int ys Hys) as [zs ->].
  rewrite (argsort_map Int64 Z.leb number_leb (fun a b => eq_refl)).
  intros Hnd. exists (argsort Z.leb zs). split; [reflexivity|].
  apply sorted_NoDup_lt.
  - apply (argsort_sorted (fun _ => false) Z.leb).
    + intros x y z Hxy Hyz. apply Z.leb_le in Hxy, Hyz. apply Z.leb_le. lia.
    + intros x y _ _. rewrite !Z.leb_le. lia.
    + apply List.Forall_forall. reflexivity.
  - eapply NoDup_map_inv. exact Hnd.
Qed.

(** Every cell of the pivot is the number of rows of its year and discovery
    type. *)
Lemma pivot_values df :
  int_years df ->
  values (pivot_counts df)
  = map (fun y => map (fun t => landings df y t) (columns (pivot_counts df)))
      (index (pivot_counts df)).
Proof.
  intros H. pose proof (pivot_index_int df H) as Hi. revert Hi.
  unfold pivot_counts, pivot_fillna. simpl. rewrite (dropna_int df H).
  intros Hi. apply map_ext_in. intros y Hy. apply map_ext. intros t.
  rewrite List.Forall_forall in Hi.
  rewrite (pivot_cell _ y t (Hi y Hy) (group_rows_int df H)). apply group_count.
Qed.

Lemma position_None (name : string) (cols : list string) :
  position name cols = None <-> ~ In name cols.
Proof.
  induction cols as [|c cols IH]; simpl; [tauto|].
  destruct (String.eqb c name) eqn:E.
  - apply String.eqb_eq in E. split; [discriminate | intros H; destruct H; now left].
  - apply String.eqb_neq in E. destruct (position name cols); simpl.
    + split; [discriminate|]. intros H. exfalso. apply H. right.
      destruct (in_dec string_dec name cols) as [Hin|Hin]; [exact Hin|].
      apply IH in Hin. discriminate.
    + split; [|reflexivity]. intros _ [H|H]; [contradiction|]. now apply IH.
Qed.

Lemma position_nth (g : string -> nat) (name : string) (cols : list string) (j : nat) :
  position name cols = Some j -> nth j (map g cols) 0%nat = g name.
Proof.
  revert j. induction cols as [|c cols IH]; intros j; simpl; [discriminate|].
  destruct (String.eqb c name) eqn:E.
  - apply String.eqb_eq in E. intros [= <-]. now subst.
  - destruct (position name cols) as [j'|]; simpl; [|discriminate].
    intros [= <-]. now apply IH.
Qed.

Lemma line_points (g : number -> string -> nat) (idx : list number) (cols : list string)
  (name : string) (j : nat) :
  position name cols = Some j ->
  combine idx (map (fun row => nth j row 0%nat) (map (fun y => map (g y) cols) idx))
  = map (fun y => (y, g y name)) idx.
Proof.
  intros Hj. induction idx as [|y idx IH]; simpl; [reflexivity|].
  now rewrite IH, (position_nth (g y) name cols j Hj).
Qed.

(** A line of the chart: absent when no row is of the discovery type, and
    otherwise one point for each year of the index. *)
Lemma line_spec df name :
  int_years df ->
  line (pivot_counts df) name
  = if existsb (fun r => option_string_eqb (Some name) (Discovery_Type r)) df
    then Some (map (fun y => (y, landings df y name)) (index (pivot_counts df)))
    else None.
Proof.
  intros H. unfold line. rewrite (pivot_values df H).
  destruct (position name (columns (pivot_counts df))) as [j|] eqn:Ej.
  - rewrite (line_points (landings df) _ _ name j Ej).
    assert (Hin : In name (columns (pivot_counts df))).
    { destruct (in_dec string_dec name (columns (pivot_counts df))) as [Hin|Hin];
        [exact Hin|]. apply position_None in Hin. congruence. }
    apply (pivot_columns_In df name H) in Hin as (r & Hr & Ht).
    replace (existsb _ df) with true; [reflexivity|].
    symmetry. apply existsb_exists. exists r. split; [exact Hr|].
    rewrite Ht. simpl. apply String.eqb_refl.
  - apply position_None in Ej.
    destruct (existsb _ df) eqn:E; [|reflexivity].
    apply existsb_exists in E as (r & Hr & Ht). destruct Ej.
    apply (pivot_columns_In df name H). exists r. split; [exact Hr|].
    destruct (Discovery_Type r) as [t|]; [|discriminate].
    simpl in Ht. apply String.eqb_eq in Ht. now subst.
Qed.

Lemma sum_zero {A} (l : list A) : sum (map (fun _ => 0%nat) l) = 0%nat.
Proof. induction l as [|a l IH]; simpl; [reflexivity | exact IH]. Qed.

Lemma sum_add {A} (a b : A -> nat) (l : list A) :
  sum (map (fun x => (a x + b x)%nat) l) = (sum (map a l) + sum (map b l))%nat.
Proof. induction l as [|x l IH]; simpl; [reflexivity|]. rewrite IH. lia. Qed.

Lemma sum_indicator {A} (p : A -> bool) (l : list A) :
  sum (map (fun x => if p x then 1%nat else 0%nat) l) = length (List.filter p l).
Proof.
  induction l as [|x l IH]; simpl; [reflexivity|].
  destruct (p x); simpl; now rewrite IH.
Qed.

(** Over a list of years without repetition that holds the year of every row
    of type [t], the counts of the years add up to the rows of type [t]. *)
Lemma sum_landings (ys : list number) df t :
  Forall int_number ys -> List.NoDup ys -> int_years df ->
  (forall r, In r df -> option_string_eqb (Some t) (Discovery_Type r) = true ->
             In (Year r) ys) ->
  sum (map (fun y => landings df y t) ys) = discovered df t.
Proof.
  intros Hys Hnd Hdf. induction Hdf as [|r df Hr Hdf IH]; intros Hcover.
  - apply sum_zero.
  - unfold discovered, landings in *. simpl.
    transitivity
      (sum (map (fun y => ((if landed y t r then 1 else 0)
                           + length (List.filter (landed y t) df))%nat) ys)).
    { f_equal. apply map_ext. intros y. now destruct (landed y t r). }
    rewrite sum_add, IH by (intros r' Hr'; apply Hcover; now right).
    rewrite sum_indicator.
    assert (E : length (List.filter (fun y => landed y t r) ys)
                = if option_string_eqb (Some t) (Discovery_Type r) then 1%nat else 0%nat).
    { unfold landed.
      destruct (option_string_eqb (Some t) (Discovery_Type r)) eqn:Et.
      - transitivity (length (List.filter (fun y => number_eqb y (Year r)) ys)).
        { f_equal. apply filter_ext. intros y. apply andb_true_r. }
        apply (count_once number_eqb _ number_eqb_int); [exact Hr | exact Hys | exact Hnd|].
        apply Hcover; [now left | exact Et].
      - replace (List.filter _ ys) with (@nil number); [reflexivity|].
        symmetry. clear Hys Hnd Hcover IH. induction ys as [|y ys IHys]; simpl; [reflexivity|].
        rewrite andb_false_r. exact IHys. }
    rewrite E. destruct (Discovery_Type r) as [t'|]; simpl; [destruct (String.eqb t t')|];
      reflexivity.
Qed.

End Views.
(** ** Properties of the map and of chart 1 *)

Lemma filter_apart {A} (p q : A -> bool) (l : list A) :
  (forall x, p x && q x = false) ->
  (length (List.filter p l) + length (List.filter q l) <= length l)%nat.
Proof.
  intros H. induction l as [|x l IH]; simpl; [lia|].
  specialize (H x). destruct (p x), (q x); simpl in *; first [lia | discriminate].
Qed.

Lemma filter_nowhere {A} (p : A -> bool) (l : list A) :
  existsb p l = false -> length (List.filter p l) = 0%nat.
Proof.
  induction l as [|x l IH]; simpl; [reflexivity|].
  intros [-> E]%orb_false_iff. now apply IH.
Qed.

Lemma discovered_apart (df : frame) (t1 t2 : string) :
  t1 <> t2 -> (discovered df t1 + discovered df t2 <= length df)%nat.
Proof.
  intros Hne. apply filter_apart. intros r.
  destruct (Discovery_Type r) as [t|]; simpl; [|reflexivity].
  destruct (String.eqb t1 t) eqn:E1, (String.eqb t2 t) eqn:E2; try reflexivity.
  apply String.eqb_eq in E1, E2. congruence.
Qed.

(** The map layer gets the rows that have both coordinates, in their order
    and none else: each keeps its name and identifier, is placed at its own
    latitude and longitude, neither of them missing, carries its mass rounded,
    and a category that is never missing, "Unknown" standing for a missing
    one. *)
Theorem map_locations_points (round2 : float -> float) (df : frame) :
  Forall2
    (fun r m =>
       lat m = Latitude r /\ lon m = Longitude r
       /\ F64.isna (lat m) = false /\ F64.isna (lon m) = false
       /\ Mass_g (point m) = round2 (Mass_g r)
       /\ Type_ (point m) = Some (match Type_ r with Some t => t | None => "Unknown"%string end)
       /\ id (point m) = id r
       /\ Meteorite_Name (point m) = Meteorite_Name r)
    (List.filter located df) (map_locations round2 df)
  /\ (length (map_locations round2 df) <= length df)%nat.
Proof.
  unfold map_locations. rewrite !map_map. fold located. split.
  - apply Forall2_map_r. intros r [_ Hr]%filter_In.
    unfold located in Hr. apply andb_true_iff in Hr as [Hlat Hlon].
    apply negb_true_iff in Hlat, Hlon. simpl.
    repeat split; try assumption. now destruct (Type_ r).
  - rewrite length_map. apply filter_length_le.
Qed.

(** The years on the horizontal axis of chart 1 are the years of the rows
    that have a discovery type, each once, in ascending order. *)
Theorem chart_landings_over_time_years (df : frame) :
  Forall (fun r => exists z, Year r = Int64 z) df ->
  (exists zs, index (pivot_counts df) = map Int64 zs /\ StronglySorted Z.lt zs)
  /\ forall y,
       In y (index (pivot_counts df))
       <-> exists r, In r df /\ Year r = y /\ present (Discovery_Type r) = true.
Proof.
  intros H. split; [now apply pivot_index_sorted|].
  intros y. now apply pivot_index_In.
Qed.

Lemma chart_landings_over_time_years_witness :
  (exists zs, index (pivot_counts Sample.displayed) = map Int64 zs /\ StronglySorted Z.lt zs)
  /\ forall y,
       In y (index (pivot_counts Sample.displayed))
       <-> exists r, In r Sample.displayed /\ Year r = y /\ present (Discovery_Type r) = true.
Proof.
  apply (chart_landings_over_time_years Sample.displayed).
  repeat (constructor; [eexists; reflexivity|]). constructor.
Defined.

(** Chart 1 draws the line of a discovery type only when some row is of that
    type, and then with one point for every year of the axis: the number of
    rows of that year and type, zero for a year in which only the other type
    occurs. *)
Theorem chart_landings_over_time_lines (df : frame) :
  Forall (fun r => exists z, Year r = Int64 z) df ->
  fell_line (chart_landings_over_time df)
  = (if existsb (fun r => option_string_eqb (Some "Fell"%string) (Discovery_Type r)) df
     then Some (map (fun y => (y, landings df y "Fell")) (index (pivot_counts df)))
     else None)
  /\ found_line (chart_landings_over_time df)
     = (if existsb (fun r => option_string_eqb (Some "Found"%string) (Discovery_Type r)) df
        then Some (map (fun y => (y, landings df y "Found")) (index (pivot_counts df)))
        else None).
Proof.
  intros H. unfold chart_landings_over_time. simpl. split; now apply line_spec.
Qed.

Lemma chart_landings_over_time_lines_witness :
  fell_line (chart_landings_over_time Sample.displayed)
  = (if existsb (fun r => option_string_eqb (Some "Fell"%string) (Discovery_Type r))
          Sample.displayed
     then Some (map (fun y => (y, landings Sample.displayed y "Fell"))
                  (index (pivot_counts Sample.displayed)))
     else None)
  /\ found_line (chart_landings_over_time Sample.displayed)
     = (if existsb (fun r => option_string_eqb (Some "Found"%string) (Discovery_Type r))
             Sample.displayed
        then Some (map (fun y => (y, landings Sample.displayed y "Found"))
                     (index (pivot_counts Sample.displayed)))
        else None).
Proof.
  apply (chart_landings_over_time_lines Sample.displayed).
  repeat (constructor; [eexists; reflexivity|]). constructor.
Defined.

(** The points of each line of chart 1 add up to the number of rows of its
    discovery type, so that no row is counted twice or left out, and a line
    that is not drawn stands for no row; the two lines together never count
    more than the rows given. *)
Theorem chart_landings_over_time_totals (df : frame) :
  Forall (fun r => exists z, Year r = Int64 z) df ->
  (forall fell, fell_line (chart_landings_over_time df) = Some fell ->
                sum (map snd fell) = discovered df "Fell")
  /\ (fell_line (chart_landings_over_time df) = None -> discovered df "Fell" = 0%nat)
  /\ (forall found, found_line (chart_landings_over_time df) = Some found ->
                    sum (map snd found) = discovered df "Found")
  /\ (found_line (chart_landings_over_time df) = None -> discovered df "Found" = 0%nat)
  /\ (discovered df "Fell" + discovered df "Found" <= length df)%nat.
Proof.
  intros H.
  assert (Hsum : forall name pts,
             line (pivot_counts df) name = Some pts ->
             sum (map snd pts) = discovered df name).
  { intros name pts Hl. rewrite (line_spec df name H) in Hl.
    destruct (existsb _ df); [|discriminate]. injection Hl as <-.
    rewrite map_map. simpl.
    apply sum_landings;
      [now apply pivot_index_int | now apply pivot_index_NoDup | exact H|].
    intros r Hr Ht. apply (pivot_index_In df (Year r) H).
    exists r. split; [exact Hr|]. split; [reflexivity|].
    now destruct (Discovery_Type r). }
  assert (Hnone : forall name,
             line (pivot_counts df) name = None -> discovered df name = 0%nat).
  { intros name Hl. rewrite (line_spec df name H) in Hl.
    destruct (existsb _ df) eqn:E; [discriminate|]. now apply filter_nowhere. }
  unfold chart_landings_over_time. simpl.
  split; [apply Hsum|]. split; [apply Hnone|].
  split; [apply Hsum|]. split; [apply Hnone|].
  now apply discovered_apart.
Qed.

Lemma chart_landings_over_time_totals_witness :
  (forall fell, fell_line (chart_landings_over_time Sample.displayed) = Some fell ->
                sum (map snd fell) = discovered Sample.displayed "Fell")
  /\ (fell_line (chart_landings_over_time Sample.displayed) = None ->
      discovered Sample.displayed "Fell" = 0%nat)
  /\ (forall found, found_line (chart_landings_over_time Sample.displayed) = Some found ->
                    sum (map snd found) = discovered Sample.displayed "Found")
  /\ (found_line (chart_landings_over_time Sample.displayed) = None ->
      discovered Sample.displayed "Found" = 0%nat)
  /\ (discovered Sample.displayed "Fell" + discovered Sample.displayed "Found"
      <= length Sample.displayed)%nat.
Proof.
  apply (chart_landings_over_time_totals Sample.displayed).
  repeat (constructor; [eexists; reflexivity|]). constructor.
Defined.

(** The bars of chart 2, when it is drawn: one for each category that occurs,
    as high as the number of rows of that category, the higher first; the
    heights add up to the number of rows that have a category. *)
Theorem chart_type_distribution_bars (df : frame) (bars : list (string * nat)) :
  chart_type_distribution df = Some bars ->
  (forall t n, In (t, n) bars <-> n = occurrences t (map Type_ df) /\ (0 < n)%nat)
  /\ NoDup (map fst bars)
  /\ StronglySorted (fun a b => (snd b <= snd a)%nat) bars
  /\ total bars = length (List.filter (fun r => present (Type_ r)) df).
Proof.
  intros Hbars.
  assert (E : bars = type_counts df).
  { unfold chart_type_distribution in Hbars. destruct (type_counts df); congruence. }
  rewrite E.
  exact (type_counts_with_facts (argsort (fun a b => (snd a <=? snd b)%nat)) df
           insertion_sorts_by_count).
Qed.

Lemma chart_type_distribution_bars_witness :
  (forall t n, In (t, n) (type_counts Sample.meteorite_data)
               <-> n = occurrences t (map Type_ Sample.meteorite_data) /\ (0 < n)%nat)
  /\ NoDup (map fst (type_counts Sample.meteorite_data))
  /\ StronglySorted (fun a b => (snd b <= snd a)%nat) (type_counts Sample.meteorite_data)
  /\ total (type_counts Sample.meteorite_data)
     = length (List.filter (fun r => present (Type_ r)) Sample.meteorite_data).
Proof.
  apply (chart_type_distribution_bars Sample.meteorite_data
           (type_counts Sample.meteorite_data)).
  vm_compute. reflexivity.
Defined.
